(** * jsoniter: reflection-driven decoder compilation, the decoder cache,
      the optional decoder and the dynamic [Any] reader

    A shallow embedding of [feature_reflect.go].  Go values are modelled as
    the code has them: byte buffers as lists of [ascii], Go strings as
    [string], [(Decoder, error)] results as a sum, maps as [gmap], the heap
    reached through [unsafe.Pointer] as a finite map from locations to cells,
    and the process-wide variables as records that are passed around. *)

From Stdlib Require Import ZArith String Ascii List Bool Lia.
From Stdlib Require Import Floats.SpecFloat.
From stdpp Require Import gmap strings list fin_maps.

Set Warnings "-register-all".
Local Open Scope string_scope.

(* ===================================================================== *)
(** ** Outcomes of a Go call *)
(* ===================================================================== *)

(** A call either returns, panics (index out of range, nil dereference,
    [reflect] misuse), or, for the loops that are driven by an arbitrary
    token source, is cut off by the step budget of the model. *)
Inductive outcome (A : Type) : Type :=
  | Ret (a : A)
  | Panic (why : string)
  | OutOfFuel.
Arguments Ret {A} a.
Arguments Panic {A} why.
Arguments OutOfFuel {A}.

Global Instance outcome_ret : MRet outcome := fun A a => Ret a.
Global Instance outcome_bind : MBind outcome := fun A B k m =>
  match m with
  | Ret a => k a
  | Panic why => Panic why
  | OutOfFuel => OutOfFuel
  end.

(* ===================================================================== *)
(** ** Errors *)
(* ===================================================================== *)

(** The two sentinel causes carried by a [*strconv.NumError]. *)
Inductive NumErr : Type := ErrSyntax | ErrRange.

(** Go [error] values that reach this file: [io.EOF], the string errors of
    [errors.New] and [fmt.Errorf], and [*strconv.NumError]. *)
Inductive error : Type :=
  | EOF
  | errorString (msg : string)
  | NumError (Func Num : string) (Err : NumErr).

Global Instance NumErr_eq_dec : EqDecision NumErr.
Proof. solve_decision. Defined.
Global Instance error_eq_dec : EqDecision error.
Proof. solve_decision. Defined.

Definition quote : string := String (ascii_of_nat 34) EmptyString.

(** [err.Error()]. *)
Definition Error_ (e : error) : string :=
  match e with
  | EOF => "EOF"
  | errorString msg => msg
  | NumError fn num cause =>
      "strconv." +:+ fn +:+ ": parsing " +:+ quote +:+ num +:+ quote +:+ ": " +:+
      match cause with
      | ErrSyntax => "invalid syntax"
      | ErrRange => "value out of range"
      end
  end.

(* ===================================================================== *)
(** ** strconv *)
(* ===================================================================== *)

(** The integer parsers of Go's standard library, at the only arguments
    [readNumber] passes (base 10, bit size 64). *)
Module strconv.

Local Open Scope Z_scope.

Definition maxUint64 : Z := 2 ^ 64 - 1.

Definition isDigit (c : ascii) : bool :=
  (48 <=? nat_of_ascii c)%nat && (nat_of_ascii c <=? 57)%nat.

Definition digitOf (c : ascii) : Z := Z.of_nat (nat_of_ascii c) - 48.

(** The digit loop of [ParseUint]: a byte that is no digit is a syntax
    error, an overflow is a range error, reported where it happens. *)
Fixpoint parseDigits (s : list ascii) (n : Z) : Z * option NumErr :=
  match s with
  | [] => (n, None)
  | c :: rest =>
      if negb (isDigit c) then (0, Some ErrSyntax)
      else if maxUint64 / 10 + 1 <=? n then (maxUint64, Some ErrRange)
      else
        let n1 := n * 10 + digitOf c in
        if maxUint64 <? n1 then (maxUint64, Some ErrRange)
        else parseDigits rest n1
  end.

Definition parseUintAs (fn s0 : string) (s : string) : Z * option error :=
  match s with
  | EmptyString => (0, Some (NumError fn s0 ErrSyntax))
  | _ =>
      match parseDigits (list_ascii_of_string s) 0 with
      | (n, None) => (n, None)
      | (n, Some cause) => (n, Some (NumError fn s0 cause))
      end
  end.

(** [strconv.ParseUint(s, 10, 64)]. *)
Definition ParseUint (s : string) : Z * option error :=
  parseUintAs "ParseUint" s s.

(** [strconv.ParseInt(s, 10, 64)]. *)
Definition ParseInt (s : string) : Z * option error :=
  match s with
  | EmptyString => (0, Some (NumError "ParseInt" s ErrSyntax))
  | String c rest =>
      let neg := Ascii.eqb c "-" in
      let digits := if Ascii.eqb c "+" || neg then rest else s in
      let cutoff := 2 ^ 63 in
      match parseUintAs "ParseInt" s digits with
      | (_, Some (NumError fn num ErrSyntax)) =>
          (0, Some (NumError fn num ErrSyntax))
      | (un, _) =>
          if negb neg && (cutoff <=? un) then
            (cutoff - 1, Some (NumError "ParseInt" s ErrRange))
          else if neg && (cutoff <? un) then
            (- cutoff, Some (NumError "ParseInt" s ErrRange))
          else (if neg then - un else un, None)
      end
  end.

End strconv.

(* ===================================================================== *)
(** ** Dynamic values and [Any] *)
(* ===================================================================== *)

(** A binary64 value, as the Standard Library's specification of IEEE 754
    represents it. *)
Definition float64 : Type := spec_float.

(** The [interface{}] values an [Any] holds: what [MakeAny] is called with in
    [ReadAny] and [readNumber]. *)
Inductive interface : Type :=
  | nil_
  | string_ (s : string)
  | bool_ (b : bool)
  | float64_ (f : float64)
  | int64_ (n : Z)
  | uint64_ (n : Z)
  | slice_ (l : list interface)
  | map_ (m : gmap string interface).

(** Modelled from the spec: the [Any] struct and [MakeAny], which are
    declared in another file of the package.  An [Any] wraps the value it was
    made from ([ReadAny] reads it back as [element.val]); [MakeAny] returns a
    pointer to a fresh one, never nil. *)
Record Any : Type := mkAny { val : interface }.

Definition MakeAny (v : interface) : option Any := Some (mkAny v).

(* ===================================================================== *)
(** ** The iterator *)
(* ===================================================================== *)

(** Modelled from the spec: the reader behind an iterator.  It hands out the
    pending chunks one refill at a time and then fails with [failure]
    ([io.EOF] at the end of the input). *)
Record Reader : Type := mkReader {
  chunks : list (list ascii);
  failure : error
}.

(** Modelled from the spec: the fields of [Iterator] that this file reads and
    writes ([iter.buf], [iter.head], [iter.tail], [iter.Error]) and the reader
    [loadMore] refills from. *)
Record Iterator : Type := mkIterator {
  reader : option Reader;
  buf : list ascii;
  head : nat;
  tail : nat;
  Error : option error
}.

Definition setHead (i : nat) (iter : Iterator) : Iterator :=
  mkIterator (reader iter) (buf iter) i (tail iter) (Error iter).

Definition setError (e : error) (iter : Iterator) : Iterator :=
  mkIterator (reader iter) (buf iter) (head iter) (tail iter) (Some e).

(** Modelled from the spec: the buffer-refill primitive, which returns whether
    more input was available.  Without a reader, or with an exhausted one, it
    records the error in the error slot and returns false; otherwise the next
    chunk becomes the buffer and scanning restarts at its first byte. *)
Definition loadMore (iter : Iterator) : bool * Iterator :=
  match reader iter with
  | None => (false, setError EOF iter)
  | Some r =>
      match chunks r with
      | [] => (false, setError (failure r) iter)
      | c :: rest =>
          (true, mkIterator (Some (mkReader rest (failure r))) c 0 (length c)
                            (Error iter))
      end
  end.

(** Modelled from the spec: [ParseString], an iterator over an in-memory
    document with no reader behind it. *)
Definition ParseString (input : string) : Iterator :=
  mkIterator None (list_ascii_of_string input) 0 (String.length input) None.

(** Number of refills the reader can still serve. *)
Definition refills (iter : Iterator) : nat :=
  match reader iter with
  | None => 0
  | Some r => length (chunks r)
  end.

(* ===================================================================== *)
(** ** The scan of a number *)
(* ===================================================================== *)

(** The locals of [readNumber] that survive a loop iteration. *)
Record numberScan : Type := mkScan {
  str : list ascii;
  foundFloat : bool;
  foundNegative : bool
}.

Definition isSignOrDigit (c : ascii) : bool :=
  Ascii.eqb c "+" || strconv.isDigit c.

Definition isFloatMark (c : ascii) : bool :=
  Ascii.eqb c "." || Ascii.eqb c "e" || Ascii.eqb c "E".

(** The inner [for i := iter.head; i < iter.tail; i++] loop, [n] being the
    number of positions left before [iter.tail].  It returns the position of
    the first byte that does not belong to a number, if the buffer has one. *)
Fixpoint scanBuf (b : list ascii) (n i : nat) (s : numberScan)
  : outcome (numberScan * option nat) :=
  match n with
  | O => Ret (s, None)
  | S n' =>
      match b !! i with
      | None => Panic "index out of range"
      | Some c =>
          if Ascii.eqb c "-" then
            scanBuf b n' (S i) (mkScan (str s ++ [c]) (foundFloat s) true)
          else if isSignOrDigit c then
            scanBuf b n' (S i) (mkScan (str s ++ [c]) (foundFloat s) (foundNegative s))
          else if isFloatMark c then
            scanBuf b n' (S i) (mkScan (str s ++ [c]) true (foundNegative s))
          else Ret (s, Some i)
      end
  end.

(** The outer [for hasMore] loop.  Every turn but the last consumes one
    refill, so [fuel] above [refills iter] is never used up. *)
Fixpoint numberLoop (fuel : nat) (iter : Iterator) (s : numberScan)
  : outcome (numberScan * Iterator) :=
  match fuel with
  | O => OutOfFuel
  | S fuel' =>
      '(s', stop) ← scanBuf (buf iter) (tail iter - head iter) (head iter) s;
      match stop with
      | Some i => Ret (s', setHead i iter)
      | None =>
          let (more, iter') := loadMore iter in
          if more then numberLoop fuel' iter' s' else Ret (s', iter')
      end
  end.

Definition scanNumber (iter : Iterator) : outcome (numberScan * Iterator) :=
  numberLoop (S (refills iter)) iter (mkScan [] false false).

(** [iter.Error != nil && iter.Error != io.EOF]. *)
Definition pendingError (iter : Iterator) : bool :=
  match Error iter with
  | None => false
  | Some EOF => false
  | Some _ => true
  end.


(* ===================================================================== *)
(** ** reflect: kinds and type descriptors *)
(* ===================================================================== *)

Module reflect.

(** [reflect.Kind], in the order of the Go declaration. *)
Inductive Kind : Type :=
  | Invalid | Bool | Int | Int8 | Int16 | Int32 | Int64
  | Uint | Uint8 | Uint16 | Uint32 | Uint64 | Uintptr
  | Float32 | Float64 | Complex64 | Complex128
  | Array | Chan | Func | Interface | Map | Ptr | Slice
  | String | Struct | UnsafePointer.

Global Instance Kind_eq_dec : EqDecision Kind.
Proof. solve_decision. Defined.

(** The kinds of the types that carry neither an element type nor fields.
    (Signatures of functions and method sets of interfaces are not
    represented: nothing in this file looks at them.) *)
Module Basic.
Inductive t : Type :=
  | Bool | Int | Int8 | Int16 | Int32 | Int64
  | Uint | Uint8 | Uint16 | Uint32 | Uint64 | Uintptr
  | Float32 | Float64 | Complex64 | Complex128
  | Func | Interface | String | UnsafePointer.

Definition all : list t :=
  [Bool; Int; Int8; Int16; Int32; Int64; Uint; Uint8; Uint16; Uint32;
   Uint64; Uintptr; Float32; Float64; Complex64; Complex128; Func;
   Interface; String; UnsafePointer].

Definition to_nat (k : t) : nat :=
  match k with
  | Bool => 0 | Int => 1 | Int8 => 2 | Int16 => 3 | Int32 => 4
  | Int64 => 5 | Uint => 6 | Uint8 => 7 | Uint16 => 8 | Uint32 => 9
  | Uint64 => 10 | Uintptr => 11 | Float32 => 12 | Float64 => 13
  | Complex64 => 14 | Complex128 => 15 | Func => 16 | Interface => 17
  | String => 18 | UnsafePointer => 19
  end.

Definition of_nat (n : nat) : t := nth n all Bool.

Definition kind (k : t) : Kind :=
  match k with
  | Bool => reflect.Bool | Int => reflect.Int | Int8 => reflect.Int8
  | Int16 => reflect.Int16 | Int32 => reflect.Int32
  | Int64 => reflect.Int64 | Uint => reflect.Uint
  | Uint8 => reflect.Uint8 | Uint16 => reflect.Uint16
  | Uint32 => reflect.Uint32 | Uint64 => reflect.Uint64
  | Uintptr => reflect.Uintptr | Float32 => reflect.Float32
  | Float64 => reflect.Float64 | Complex64 => reflect.Complex64
  | Complex128 => reflect.Complex128 | Func => reflect.Func
  | Interface => reflect.Interface | String => reflect.String
  | UnsafePointer => reflect.UnsafePointer
  end.
End Basic.

(** [reflect.StructField], as far as a type descriptor is concerned. *)
Record StructField (T : Type) : Type := mkField {
  Name : string;
  Tag : string;
  FieldType : T
}.
Arguments mkField {T} _ _ _.
Arguments Name {T} _.
Arguments Tag {T} _.
Arguments FieldType {T} _.

(** [reflect.Type]: a type descriptor.  Every descriptor carries what
    [String()] returns for it; composite types carry their components. *)
Inductive Type_ : Type :=
  | TBasic (name : string) (k : Basic.t)
  | TStruct (name : string) (fields : list (StructField Type_))
  | TArray (name : string) (len : nat) (elem : Type_)
  | TChan (name : string) (elem : Type_)
  | TMap (name : string) (key elem : Type_)
  | TPtr (name : string) (elem : Type_)
  | TSlice (name : string) (elem : Type_).

(** [typ.String()]. *)
Definition Type_String (typ : Type_) : string :=
  match typ with
  | TBasic name _ | TStruct name _ | TArray name _ _ | TChan name _
  | TMap name _ _ | TPtr name _ | TSlice name _ => name
  end.

(** [typ.Kind()]. *)
Definition Type_Kind (typ : Type_) : Kind :=
  match typ with
  | TBasic _ k => Basic.kind k
  | TStruct _ _ => Struct
  | TArray _ _ _ => Array
  | TChan _ _ => Chan
  | TMap _ _ _ => Map
  | TPtr _ _ => Ptr
  | TSlice _ _ => Slice
  end.

(** [typ.Elem()], which panics when the kind is not Array, Chan, Map, Ptr
    or Slice. *)
Definition Type_Elem (typ : Type_) : outcome Type_ :=
  match typ with
  | TArray _ _ elem | TChan _ elem | TMap _ _ elem | TPtr _ elem
  | TSlice _ elem => Ret elem
  | TBasic _ _ | TStruct _ _ => Panic "reflect: Elem of invalid type"
  end.

(** [typ.Key()], which panics when the kind is not Map. *)
Definition Type_Key (typ : Type_) : outcome Type_ :=
  match typ with
  | TMap _ key _ => Ret key
  | _ => Panic "reflect: Key of non-map type"
  end.

(** [reflect.PtrTo(typ)]. *)
Definition PtrTo (typ : Type_) : Type_ := TPtr ("*" +:+ Type_String typ) typ.

(** Descriptors are compared and hashed as trees of names and numbers. *)
Fixpoint to_tree (typ : Type_) : gen_tree (string + nat) :=
  match typ with
  | TBasic name k =>
      GenNode 0 [GenLeaf (inl name); GenLeaf (inr (Basic.to_nat k))]
  | TStruct name fields =>
      GenNode 1 (GenLeaf (inl name) ::
                 map (fun f => GenNode 0 [GenLeaf (inl (Name f));
                                          GenLeaf (inl (Tag f));
                                          to_tree (FieldType f)]) fields)
  | TArray name len elem =>
      GenNode 2 [GenLeaf (inl name); GenLeaf (inr len); to_tree elem]
  | TChan name elem => GenNode 3 [GenLeaf (inl name); to_tree elem]
  | TMap name key elem =>
      GenNode 4 [GenLeaf (inl name); to_tree key; to_tree elem]
  | TPtr name elem => GenNode 5 [GenLeaf (inl name); to_tree elem]
  | TSlice name elem => GenNode 6 [GenLeaf (inl name); to_tree elem]
  end.

Fixpoint of_tree (t : gen_tree (string + nat)) : Type_ :=
  match t with
  | GenNode 0 [GenLeaf (inl name); GenLeaf (inr k)] =>
      TBasic name (Basic.of_nat k)
  | GenNode 1 (GenLeaf (inl name) :: fields) =>
      TStruct name
        (map (fun f =>
                match f with
                | GenNode 0 [GenLeaf (inl n); GenLeaf (inl tag); ft] =>
                    mkField n tag (of_tree ft)
                | _ => mkField "" "" (TBasic "" Basic.Bool)
                end) fields)
  | GenNode 2 [GenLeaf (inl name); GenLeaf (inr len); elem] =>
      TArray name len (of_tree elem)
  | GenNode 3 [GenLeaf (inl name); elem] => TChan name (of_tree elem)
  | GenNode 4 [GenLeaf (inl name); key; elem] =>
      TMap name (of_tree key) (of_tree elem)
  | GenNode 5 [GenLeaf (inl name); elem] => TPtr name (of_tree elem)
  | GenNode 6 [GenLeaf (inl name); elem] => TSlice name (of_tree elem)
  | _ => TBasic "" Basic.Bool
  end.

Lemma Basic_of_to_nat (k : Basic.t) : Basic.of_nat (Basic.to_nat k) = k.
Proof. destruct k; reflexivity. Qed.

Lemma of_to_tree (typ : Type_) : of_tree (to_tree typ) = typ.
Proof.
  revert typ. fix IH 1. intros [name k|name fields|name len elem|name elem
    |name key elem|name elem|name elem]; simpl.
  - by rewrite Basic_of_to_nat.
  - f_equal. induction fields as [|[n tag ft] fields IHf]; simpl; [done|].
    by rewrite IH, IHf.
  - by rewrite IH.
  - by rewrite IH.
  - by rewrite !IH.
  - by rewrite IH.
  - by rewrite IH.
Qed.

Global Instance Type_eq_dec : EqDecision Type_.
Proof.
  intros x y. destruct (decide (to_tree x = to_tree y)) as [E|N].
  - left. rewrite <- (of_to_tree x), <- (of_to_tree y). by rewrite E.
  - right. intros ->. by apply N.
Defined.

Global Instance Type_countable : Countable Type_ :=
  inj_countable' to_tree of_tree of_to_tree.

End reflect.

Abbreviation rtype := reflect.Type_.

(* ===================================================================== *)
(** ** Memory reached through [unsafe.Pointer] *)
(* ===================================================================== *)

(** A location is the address of one allocated variable. *)
Definition loc : Type := positive.

(** What a variable holds: a pointer word (nil or an address), or a value. *)
Inductive cell : Type :=
  | CPtr (p : option loc)
  | CVal (v : interface).

Record State : Type := mkState {
  heap : gmap loc cell;
  iter : Iterator
}.

Definition setIter (it : Iterator) (st : State) : State := mkState (heap st) it.

(** Reading the word at [ptr] as an [unsafe.Pointer]. *)
Definition loadPointer (ptr : loc) (st : State) : option loc :=
  match heap st !! ptr with
  | Some (CPtr p) => p
  | _ => None
  end.

(** Storing the pointer [p] in the word at [ptr]. *)
Definition storePointer (ptr : loc) (p : option loc) (st : State) : State :=
  mkState (<[ptr := CPtr p]> (heap st)) (iter st).

(** The zero value [reflect.New] initialises a variable of the type with. *)
Definition zeroValue (typ : rtype) : cell :=
  match reflect.Type_Kind typ with
  | reflect.Ptr | reflect.Map | reflect.Chan | reflect.Func
  | reflect.UnsafePointer => CPtr None
  | reflect.Bool => CVal (bool_ false)
  | reflect.String => CVal (string_ "")
  | reflect.Int | reflect.Int8 | reflect.Int16 | reflect.Int32
  | reflect.Int64 => CVal (int64_ 0)
  | reflect.Uint | reflect.Uint8 | reflect.Uint16 | reflect.Uint32
  | reflect.Uint64 | reflect.Uintptr => CVal (uint64_ 0)
  | reflect.Float32 | reflect.Float64 => CVal (float64_ (S754_zero false))
  | reflect.Slice => CVal (slice_ [])
  | _ => CVal nil_
  end.

(** [reflect.New(typ).Pointer()]: the address of a fresh zeroed variable. *)
Definition reflect_New (typ : rtype) (st : State) : loc * State :=
  let value := fresh (dom (heap st)) in
  (value, mkState (<[value := zeroValue typ]> (heap st)) (iter st)).

(* ===================================================================== *)
(** ** Decoders *)
(* ===================================================================== *)

(** [DecoderFunc]: the target address, the iterator and the memory it may
    write, the last two passed as one state. *)
Definition DecoderFunc : Type := loc -> State -> State.

(** The implementations of the [Decoder] interface.  [&funcDecoder{fun}],
    [&optionalDecoder{valueType, valueDecoder}], [&sliceDecoder{...}] and
    [&mapDecoder{...}] keep their fields; of the interface header a map decoder
    keeps, the type word is represented (its data word is overwritten before
    it is read).  The decoder types that [decoderOfStruct] builds are declared
    elsewhere: [structDecoder] stands for them, with the [decode] method as its
    only field. *)
Inductive Decoder : Type :=
  | funcDecoder (fun_ : DecoderFunc)
  | stringDecoder | intDecoder | int8Decoder | int16Decoder | int32Decoder
  | int64Decoder | uintDecoder | uint8Decoder | uint16Decoder | uint32Decoder
  | uint64Decoder | float32Decoder | float64Decoder | boolDecoder
  | interfaceDecoder | anyDecoder
  | optionalDecoder (valueType : rtype) (valueDecoder : Decoder)
  | sliceDecoder (sliceType elemType : rtype) (elemDecoder : Decoder)
  | mapDecoder (mapType elemType : rtype) (elemDecoder : Decoder)
               (mapInterface : rtype)
  | structDecoder (decode_ : DecoderFunc).

(** [ExtensionFunc]. *)
Definition ExtensionFunc : Type :=
  rtype -> reflect.StructField rtype -> list string * option DecoderFunc.

(** The package-level registries [typeDecoders], [fieldDecoders] and
    [extensions]. *)
Record Registry : Type := mkRegistry {
  typeDecoders : gmap string Decoder;
  fieldDecoders : gmap string Decoder;
  extensions : list ExtensionFunc
}.

(** The package-level [DECODERS] pointer together with the map objects it
    points, or has pointed, to. *)
Record Cache : Type := mkCache {
  DECODERS : loc;
  objects : gmap loc (gmap rtype Decoder)
}.

(** The part of [init] that concerns the registries. *)
Definition init_registry : Registry := mkRegistry ∅ ∅ [].

(** The part of [init] that concerns the cache:
    [atomic.StorePointer(&DECODERS, unsafe.Pointer(&map[string]Decoder{}))]. *)
Definition init_cache : Cache := mkCache 1%positive {[ 1%positive := ∅ ]}.

(* ===================================================================== *)
(** ** What the rest of the package provides *)
(* ===================================================================== *)

(** Modelled from the spec: the kinds a token source reports for the next
    value, [Invalid] being what it reports when the input starts none of the
    six JSON values. *)
Module ValueType.
Inductive t : Type :=
  | Invalid | String | Number | Null | Bool | Array | Object.

Global Instance eq_dec : EqDecision t.
Proof. solve_decision. Defined.
End ValueType.

(** The token source: the iterator methods that [ReadAny] and the optional
    decoder call and that are implemented in the scanner.  Each takes the
    iterator and returns it, possibly advanced and possibly with its error
    slot set, along with its result.  [formatValueType] is what [fmt] prints
    for a value type under [%v]. *)
Class TokenSource : Type := {
  WhatIsNext : Iterator -> ValueType.t * Iterator;
  ReadNil : Iterator -> bool * Iterator;
  ReadBool : Iterator -> bool * Iterator;
  ReadString : Iterator -> string * Iterator;
  ReadArray : Iterator -> bool * Iterator;
  ReadObject : Iterator -> string * Iterator;
  reportError : string -> string -> Iterator -> Iterator;
  formatValueType : ValueType.t -> string
}.

(** [strconv.ParseFloat(s, 64)]: taken as given, correctly rounded
    decimal-to-binary conversion being outside this development. *)
Class FloatParser : Type := {
  ParseFloat : string -> float64 * option error
}.

(** The decoders implemented in the other files of the package: the [decode]
    methods of the native, slice, interface and any decoders, and the
    compilation of struct types.  The [decode] method of the map decoder,
    which drives [reflect.Value.SetMapIndex] and which no property below is
    about, is reached through [decodeNative] as well. *)
Class NativeDecoders : Type := {
  decodeNative : Decoder -> DecoderFunc;
  decoderOfStruct : Registry -> rtype -> Decoder + error
}.

(* ===================================================================== *)
(** ** readNumber *)
(* ===================================================================== *)

Section ReadNumber.

Context `{FloatParser}.

Definition readNumber (iter : Iterator) : outcome (option Any * Iterator) :=
  '(s, iter) ← scanNumber iter;
  if pendingError iter then Ret (None, iter)
  else
    let number := string_of_list_ascii (str s) in
    if foundFloat s then
      match ParseFloat number with
      | (_, Some err) => Ret (None, setError err iter)
      | (v, None) => Ret (MakeAny (float64_ v), iter)
      end
    else if foundNegative s then
      match strconv.ParseInt number with
      | (_, Some err) => Ret (None, setError err iter)
      | (v, None) => Ret (MakeAny (int64_ v), iter)
      end
    else
      match strconv.ParseUint number with
      | (_, Some err) => Ret (None, setError err iter)
      | (v, None) => Ret (MakeAny (uint64_ v), iter)
      end.

End ReadNumber.

(* ===================================================================== *)
(** ** The decoder cache and the registry *)
(* ===================================================================== *)

Definition nilDereference : string :=
  "invalid memory address or nil pointer dereference".

(** [atomic.CompareAndSwapPointer(&DECODERS, old, new)]. *)
Definition CompareAndSwapPointer (old new : loc) (c : Cache) : bool * Cache :=
  if decide (DECODERS c = old) then (true, mkCache new (objects c))
  else (false, c).

(** Taking the address of a new map object. *)
Definition newObject (m : gmap rtype Decoder) (c : Cache) : loc * Cache :=
  let l := fresh (dom (objects c)) in
  (l, mkCache (DECODERS c) (<[l := m]> (objects c))).

(** [for k, v := range cache { copy[k] = v }], starting from an empty map. *)
Definition copyOf (cache : gmap rtype Decoder) : gmap rtype Decoder :=
  map_fold (fun k v copy => <[k := v]> copy) ∅ cache.

(** [addDecoderToCache].  One turn of the retry loop loads the pointer,
    copies the map it points to, adds the entry and tries to swap the copy
    in.  [rivals] lists what the other goroutines do to the cache between
    the load and the compare-and-swap, one entry per turn; when the list is
    empty nothing interferes. *)
Fixpoint addDecoderToCache (rivals : list (Cache -> Cache)) (cacheKey : rtype)
    (decoder : Decoder) (c : Cache) : outcome Cache :=
  let ptr := DECODERS c in
  match objects c !! ptr with
  | None => Panic nilDereference
  | Some cache =>
      let copy := <[cacheKey := decoder]> (copyOf cache) in
      let (new, c) := newObject copy c in
      match rivals with
      | [] =>
          let (swapped, c) := CompareAndSwapPointer ptr new c in
          if swapped then Ret c else OutOfFuel
      | rival :: rivals' =>
          let (swapped, c) := CompareAndSwapPointer ptr new (rival c) in
          if swapped then Ret c
          else addDecoderToCache rivals' cacheKey decoder c
      end
  end.

(** [getDecoderFromCache]: a missing key reads as nil. *)
Definition getDecoderFromCache (cacheKey : rtype) (c : Cache)
  : outcome (option Decoder) :=
  match objects c !! DECODERS c with
  | None => Panic nilDereference
  | Some cache => Ret (cache !! cacheKey)
  end.

(** [RegisterTypeDecoder]. *)
Definition RegisterTypeDecoder (typ : string) (fun_ : DecoderFunc)
    (reg : Registry) : Registry :=
  mkRegistry (<[typ := funcDecoder fun_]> (typeDecoders reg))
             (fieldDecoders reg) (extensions reg).

(** [RegisterFieldDecoder]. *)
Definition RegisterFieldDecoder (typ field : string) (fun_ : DecoderFunc)
    (reg : Registry) : Registry :=
  mkRegistry (typeDecoders reg)
             (<[typ +:+ "/" +:+ field := funcDecoder fun_]> (fieldDecoders reg))
             (extensions reg).

(** [RegisterExtension]. *)
Definition RegisterExtension (extension : ExtensionFunc) (reg : Registry)
  : Registry :=
  mkRegistry (typeDecoders reg) (fieldDecoders reg)
             (extensions reg ++ [extension]).

(** [CleanDecoders]. *)
Definition CleanDecoders (reg : Registry) : Registry :=
  mkRegistry ∅ ∅ (extensions reg).

(* ===================================================================== *)
(** ** Compiling a decoder from a type *)
(* ===================================================================== *)

(** [prefix.addTo]. *)
Definition addTo (p : string) (r : Decoder + error) : Decoder + error :=
  match r with
  | inr err => inr (errorString (p +:+ ": " +:+ Error_ err))
  | inl decoder => inl decoder
  end.

Section Compile.

Context `{NativeDecoders}.
Variable reg : Registry.

(** [decoderOfOptional], [decoderOfSlice] and [decoderOfMap], with
    [decoderOfPtr] passed in and [elem] standing for [typ.Elem()]. *)
Definition decoderOfOptional (decoderOfPtr : rtype -> Decoder + error)
    (typ : rtype) : Decoder + error :=
  match decoderOfPtr typ with
  | inr err => inr err
  | inl decoder => inl (optionalDecoder typ decoder)
  end.

Definition decoderOfSlice (decoderOfPtr : rtype -> Decoder + error)
    (typ elem : rtype) : Decoder + error :=
  match decoderOfPtr elem with
  | inr err => inr err
  | inl decoder => inl (sliceDecoder typ elem decoder)
  end.

Definition decoderOfMap (decoderOfPtr : rtype -> Decoder + error)
    (typ elem : rtype) : Decoder + error :=
  match decoderOfPtr elem with
  | inr err => inr err
  | inl decoder => inl (mapDecoder typ elem decoder (reflect.PtrTo typ))
  end.

Definition unsupported (typ : rtype) : Decoder + error :=
  inr (errorString ("unsupported type: " +:+ reflect.Type_String typ)).

Fixpoint decoderOfPtr (typ : rtype) : Decoder + error :=
  let typeName := reflect.Type_String typ in
  if decide (typeName = "jsoniter.Any") then inl anyDecoder
  else
    match typeDecoders reg !! typeName with
    | Some typeDecoder => inl typeDecoder
    | None =>
        match typ with
        | reflect.TBasic _ reflect.Basic.String => inl stringDecoder
        | reflect.TBasic _ reflect.Basic.Int => inl intDecoder
        | reflect.TBasic _ reflect.Basic.Int8 => inl int8Decoder
        | reflect.TBasic _ reflect.Basic.Int16 => inl int16Decoder
        | reflect.TBasic _ reflect.Basic.Int32 => inl int32Decoder
        | reflect.TBasic _ reflect.Basic.Int64 => inl int64Decoder
        | reflect.TBasic _ reflect.Basic.Uint => inl uintDecoder
        | reflect.TBasic _ reflect.Basic.Uint8 => inl uint8Decoder
        | reflect.TBasic _ reflect.Basic.Uint16 => inl uint16Decoder
        | reflect.TBasic _ reflect.Basic.Uint32 => inl uint32Decoder
        | reflect.TBasic _ reflect.Basic.Uint64 => inl uint64Decoder
        | reflect.TBasic _ reflect.Basic.Float32 => inl float32Decoder
        | reflect.TBasic _ reflect.Basic.Float64 => inl float64Decoder
        | reflect.TBasic _ reflect.Basic.Bool => inl boolDecoder
        | reflect.TBasic _ reflect.Basic.Interface => inl interfaceDecoder
        | reflect.TStruct _ _ => decoderOfStruct reg typ
        | reflect.TSlice _ elem =>
            addTo "[slice]" (decoderOfSlice decoderOfPtr typ elem)
        | reflect.TMap _ _ elem =>
            addTo "[map]" (decoderOfMap decoderOfPtr typ elem)
        | reflect.TPtr _ elem =>
            addTo "[optional]" (decoderOfOptional decoderOfPtr elem)
        | _ => unsupported typ
        end
    end.

Definition decoderOfType (typ : rtype) : Decoder + error :=
  match typ with
  | reflect.TPtr _ elem => addTo "ptr" (decoderOfPtr elem)
  | _ => inr (errorString "expect ptr")
  end.

End Compile.

(* ===================================================================== *)
(** ** Running a decoder *)
(* ===================================================================== *)

Section Decode.

Context `{TokenSource} `{NativeDecoders}.

(** [optionalDecoder.decode], the [decode] method of the value decoder
    passed in. *)
Definition optionalDecoder_decode (valueType : rtype)
    (valueDecoder_decode : DecoderFunc) : DecoderFunc :=
  fun ptr st =>
    let (isNil, it) := ReadNil (iter st) in
    let st := setIter it st in
    if isNil then storePointer ptr None st
    else
      match loadPointer ptr st with
      | None =>
          let (value, st) := reflect_New valueType st in
          let st := valueDecoder_decode value st in
          storePointer ptr (Some value) st
      | Some existing => valueDecoder_decode existing st
      end.

(** [funcDecoder.decode]. *)
Definition funcDecoder_decode (fun_ : DecoderFunc) : DecoderFunc :=
  fun ptr st => fun_ ptr st.

(** [decoder.decode], dispatched on the dynamic type of the decoder. *)
Fixpoint decode (decoder : Decoder) : DecoderFunc :=
  match decoder with
  | funcDecoder fun_ => funcDecoder_decode fun_
  | optionalDecoder valueType valueDecoder =>
      optionalDecoder_decode valueType (decode valueDecoder)
  | structDecoder decode_ => decode_
  | _ => decodeNative decoder
  end.

End Decode.

(* ===================================================================== *)
(** ** ReadAny *)
(* ===================================================================== *)

Section ReadAny.

Context `{TokenSource} `{FloatParser}.

Definition hasError (it : Iterator) : bool :=
  match Error it with
  | Some _ => true
  | None => false
  end.

(** The [for iter.ReadArray()] loop of the array case, [ReadAny] being the
    recursive call and [n] a bound on the number of turns.  A bare [return]
    leaves the named result nil. *)
Fixpoint readElements (ReadAny : Iterator -> outcome (option Any * Iterator))
    (n : nat) (val_ : list interface) (it : Iterator)
  : outcome (option Any * Iterator) :=
  match n with
  | O => OutOfFuel
  | S n' =>
      let (more, it) := ReadArray it in
      if more then
        '(element, it) ← ReadAny it;
        if hasError it then Ret (None, it)
        else
          match element with
          | None => Panic nilDereference
          | Some e => readElements ReadAny n' (val_ ++ [val e]) it
          end
      else Ret (MakeAny (slice_ val_), it)
  end.

(** The [for field := iter.ReadObject(); field != ...] loop of the object
    case. *)
Fixpoint readFields (ReadAny : Iterator -> outcome (option Any * Iterator))
    (n : nat) (val_ : gmap string interface) (it : Iterator)
  : outcome (option Any * Iterator) :=
  match n with
  | O => OutOfFuel
  | S n' =>
      let (field, it) := ReadObject it in
      if decide (field = "") then Ret (MakeAny (map_ val_), it)
      else
        '(element, it) ← ReadAny it;
        if hasError it then Ret (None, it)
        else
          match element with
          | None => Panic nilDereference
          | Some e => readFields ReadAny n' (<[field := val e]> val_) it
          end
  end.

(** [Iterator.ReadAny].  [fuel] bounds the nesting depth of the document
    and the number of elements or fields of each array or object. *)
Fixpoint ReadAny (fuel : nat) (it : Iterator)
  : outcome (option Any * Iterator) :=
  match fuel with
  | O => OutOfFuel
  | S fuel' =>
      let (valueType, it) := WhatIsNext it in
      match valueType with
      | ValueType.String =>
          let (s, it) := ReadString it in Ret (MakeAny (string_ s), it)
      | ValueType.Number => readNumber it
      | ValueType.Null => Ret (MakeAny nil_, it)
      | ValueType.Bool =>
          let (b, it) := ReadBool it in Ret (MakeAny (bool_ b), it)
      | ValueType.Array => readElements (ReadAny fuel') fuel' [] it
      | ValueType.Object => readFields (ReadAny fuel') fuel' ∅ it
      | ValueType.Invalid =>
          let it :=
            reportError "ReadAny"
              ("unexpected value type: " +:+ formatValueType valueType) it in
          Ret (MakeAny nil_, it)
      end
  end.

End ReadAny.

(* ===================================================================== *)
(** ** Read *)
(* ===================================================================== *)

(** The header of the [interface{}] handed to [Read]: the dynamic type and the
    data word, which for a pointer is the pointer itself.  (A nil interface
    and a nil pointer are not represented.) *)
Record emptyInterface : Type := mkInterface {
  typ : rtype;
  word : loc
}.

Section Read.

Context `{TokenSource} `{NativeDecoders}.

(** [Iterator.Read], the registries and the cache being passed in and the
    cache returned. *)
Definition Read (reg : Registry) (obj : emptyInterface) (c : Cache)
    (st : State) : outcome (Cache * State) :=
  cacheKey ← reflect.Type_Elem (typ obj);
  cachedDecoder ← getDecoderFromCache cacheKey c;
  match cachedDecoder with
  | Some cachedDecoder => Ret (c, decode cachedDecoder (word obj) st)
  | None =>
      match decoderOfType reg (typ obj) with
      | inr err => Ret (c, setIter (setError err (iter st)) st)
      | inl decoder =>
          c ← addDecoderToCache [] cacheKey decoder c;
          Ret (c, decode decoder (word obj) st)
      end
  end.

End Read.

(* ===================================================================== *)
(** ** A scanner for plain documents *)
(* ===================================================================== *)

(** Modelled from the spec: an implementation of the token-source contract
    over the iterator's buffer, for documents held in memory whose strings
    have no escapes.  The properties below are proved for every token
    source; this one serves to run the functions on concrete documents. *)
Module Scanner.

Definition dquote : ascii := ascii_of_nat 34.

Definition peekByte (it : Iterator) : option ascii :=
  if decide (head it < tail it) then buf it !! head it else None.

Definition advance (k : nat) (it : Iterator) : Iterator :=
  setHead (head it + k) it.

Definition isSpace (c : ascii) : bool :=
  Ascii.eqb c " " || Ascii.eqb c (ascii_of_nat 10)
  || Ascii.eqb c (ascii_of_nat 9) || Ascii.eqb c (ascii_of_nat 13).

Fixpoint skipSpaces (n : nat) (it : Iterator) : Iterator :=
  match n with
  | O => it
  | S n' =>
      match peekByte it with
      | Some c => if isSpace c then skipSpaces n' (advance 1 it) else it
      | None => it
      end
  end.

Definition skipWhitespaces (it : Iterator) : Iterator :=
  skipSpaces (tail it - head it) it.

(** The next byte that is not white space, consumed; at the end of the
    buffer the iterator asks for more input. *)
Definition nextToken (it : Iterator) : option ascii * Iterator :=
  let it := skipWhitespaces it in
  match peekByte it with
  | Some c => (Some c, advance 1 it)
  | None => (None, snd (loadMore it))
  end.

(** The first error reported is the one that stays in the slot. *)
Definition report (operation msg : string) (it : Iterator) : Iterator :=
  match Error it with
  | Some _ => it
  | None => setError (errorString (operation +:+ ": " +:+ msg)) it
  end.

Definition whatIsNext (it : Iterator) : ValueType.t * Iterator :=
  let it := skipWhitespaces it in
  match peekByte it with
  | Some c =>
      (if Ascii.eqb c dquote then ValueType.String
       else if Ascii.eqb c "-" || strconv.isDigit c then ValueType.Number
       else if Ascii.eqb c "n" then ValueType.Null
       else if Ascii.eqb c "t" || Ascii.eqb c "f" then ValueType.Bool
       else if Ascii.eqb c "[" then ValueType.Array
       else if Ascii.eqb c "{" then ValueType.Object
       else ValueType.Invalid, it)
  | None => (ValueType.Invalid, it)
  end.

Definition readNil (it : Iterator) : bool * Iterator :=
  let it := skipWhitespaces it in
  match peekByte it with
  | Some c => if Ascii.eqb c "n" then (true, advance 4 it) else (false, it)
  | None => (false, it)
  end.

Definition readBool (it : Iterator) : bool * Iterator :=
  match nextToken it with
  | (Some c, it) =>
      if Ascii.eqb c "t" then (true, advance 3 it)
      else if Ascii.eqb c "f" then (false, advance 4 it)
      else (false, report "ReadBool" "expect t or f" it)
  | (None, it) => (false, it)
  end.

(** The bytes up to the closing quote and the position after it. *)
Fixpoint untilQuote (b : list ascii) (n i : nat) (acc : list ascii)
  : option (list ascii * nat) :=
  match n with
  | O => None
  | S n' =>
      match b !! i with
      | Some c =>
          if Ascii.eqb c dquote then Some (acc, S i)
          else untilQuote b n' (S i) (acc ++ [c])
      | None => None
      end
  end.

Definition readString (it : Iterator) : string * Iterator :=
  match nextToken it with
  | (Some c, it) =>
      if Ascii.eqb c dquote then
        match untilQuote (buf it) (tail it - head it) (head it) [] with
        | Some (s, i) => (string_of_list_ascii s, setHead i it)
        | None => ("", report "ReadString" "incomplete string" it)
        end
      else ("", report "ReadString" "expects quote" it)
  | (None, it) => ("", it)
  end.

Definition readArray (it : Iterator) : bool * Iterator :=
  match nextToken it with
  | (Some c, it) =>
      if Ascii.eqb c "[" then
        match nextToken it with
        | (Some c, it') =>
            if Ascii.eqb c "]" then (false, it') else (true, skipWhitespaces it)
        | (None, it') => (false, it')
        end
      else if Ascii.eqb c "]" then (false, it)
      else if Ascii.eqb c "," then (true, skipWhitespaces it)
      else (false, report "ReadArray" "expect [ or , or ]" it)
  | (None, it) => (false, it)
  end.

Definition readField (it : Iterator) : string * Iterator :=
  let (field, it) := readString it in
  match nextToken it with
  | (Some c, it) =>
      if Ascii.eqb c ":" then (field, it)
      else ("", report "ReadObject" "expect : after object field" it)
  | (None, it) => ("", it)
  end.

Definition readObject (it : Iterator) : string * Iterator :=
  match nextToken it with
  | (Some c, it) =>
      if Ascii.eqb c "{" then
        match nextToken it with
        | (Some c, it') =>
            if Ascii.eqb c "}" then ("", it') else readField it
        | (None, it') => ("", it')
        end
      else if Ascii.eqb c "}" then ("", it)
      else if Ascii.eqb c "," then readField it
      else ("", report "ReadObject" "expect { or , or }" it)
  | (None, it) => ("", it)
  end.

Definition format (t : ValueType.t) : string :=
  match t with
  | ValueType.Invalid => "0" | ValueType.String => "1"
  | ValueType.Number => "2" | ValueType.Null => "3"
  | ValueType.Bool => "4" | ValueType.Array => "5"
  | ValueType.Object => "6"
  end.

Definition source : TokenSource :=
  Build_TokenSource whatIsNext readNil readBool readString readArray
                    readObject report format.

(** A float parser for literals of the form [-d.d]: the digits read as an
    integer, divided by the power of ten with one correctly rounded
    division. *)
Definition digitsValue (ds : list ascii) : Z :=
  fold_left (fun n c => (n * 10 + strconv.digitOf c)%Z) ds 0%Z.

Definition ofZ (n : Z) : float64 := binary_normalize 53 1024 n 0 false.

Fixpoint splitDot (l : list ascii) : list ascii * option (list ascii) :=
  match l with
  | [] => ([], None)
  | c :: rest =>
      if Ascii.eqb c "." then ([], Some rest)
      else let (whole, frac) := splitDot rest in (c :: whole, frac)
  end.

Definition allDigits (l : list ascii) : bool :=
  negb (bool_decide (l = [])) && forallb strconv.isDigit l.

Definition parseDecimal (s : string) : float64 * option error :=
  let bytes := list_ascii_of_string s in
  let neg := match bytes with c :: _ => Ascii.eqb c "-" | [] => false end in
  let (whole, frac) := splitDot (if neg then drop 1 bytes else bytes) in
  if allDigits whole && from_option allDigits true frac then
    let frac := default [] frac in
    let v := SFdiv 53 1024 (ofZ (digitsValue (whole ++ frac)))
                   (ofZ (10 ^ Z.of_nat (length frac))) in
    (if neg then SFopp v else v, None)
  else (S754_zero false, Some (NumError "ParseFloat" s ErrSyntax)).

Definition floats : FloatParser := Build_FloatParser parseDecimal.

(** The native decoders the examples run: text and booleans are read from
    the scanner and stored at the target; the others, and the decoders of
    struct types, are left without effect. *)
Definition native (d : Decoder) : DecoderFunc :=
  fun ptr st =>
    match d with
    | stringDecoder =>
        let (s, it) := readString (iter st) in
        mkState (<[ptr := CVal (string_ s)]> (heap st)) it
    | boolDecoder =>
        let (b, it) := readBool (iter st) in
        mkState (<[ptr := CVal (bool_ b)]> (heap st)) it
    | _ => st
    end.

Definition decoders : NativeDecoders :=
  Build_NativeDecoders native (fun _ _ => inl (structDecoder (fun _ st => st))).

End Scanner.

(* ===================================================================== *)
(** * Specification *)
(* ===================================================================== *)

(** ** The lexical classification of numbers *)

(** The classification of a numeric literal as the specification words it:
    by the characters the literal contains, and by nothing else. *)
Inductive NumberClass : Type := ClassFloat | ClassSigned | ClassUnsigned.

Definition contains (c : ascii) (literal : string) : bool :=
  existsb (Ascii.eqb c) (list_ascii_of_string literal).

Definition lexicalClass (literal : string) : NumberClass :=
  if contains "." literal || contains "e" literal || contains "E" literal
  then ClassFloat
  else if contains "-" literal then ClassSigned
  else ClassUnsigned.

Definition parseAs `{FloatParser} (cls : NumberClass) (literal : string)
  : interface * option error :=
  match cls with
  | ClassFloat => let (v, err) := ParseFloat literal in (float64_ v, err)
  | ClassSigned => let (v, err) := strconv.ParseInt literal in (int64_ v, err)
  | ClassUnsigned => let (v, err) := strconv.ParseUint literal in (uint64_ v, err)
  end.

(** The result the specification gives for a literal: the value of the parser
    chosen by the lexical class, or nil with the parser's error in the slot. *)
Definition classified `{FloatParser} (literal : string) (it : Iterator)
  : option Any * Iterator :=
  match parseAs (lexicalClass literal) literal with
  | (_, Some err) => (None, setError err it)
  | (v, None) => (MakeAny v, it)
  end.

(** The flags of a scan agree with the bytes accumulated so far. *)
Definition flagsAgree (s : numberScan) : Prop :=
  foundFloat s = existsb isFloatMark (str s) /\
  foundNegative s = existsb (Ascii.eqb "-") (str s).

(** ** The kinds of value [ReadAny] represents *)

Definition representable (t : ValueType.t) : Prop :=
  t ∈ [ValueType.String; ValueType.Number; ValueType.Null; ValueType.Bool;
       ValueType.Array; ValueType.Object].

(** ** Runs of a token source over an array or an object *)

Section Runs.

Context `{TokenSource}.

Implicit Types (readAny : Iterator -> outcome (option Any * Iterator)).

(** [elementsRead readAny it vs it']: from [it] the token source announces
  one element after the other, each parsed by [readAny] without an error,
  their values being [vs] in document order, and [it'] is the iterator
  after the last of them. *)
Inductive elementsRead readAny : Iterator -> list interface -> Iterator -> Prop :=
| elementsRead_nil it : elementsRead readAny it [] it
| elementsRead_cons it it1 e it2 vs it3 :
    ReadArray it = (true, it1) ->
    readAny it1 = Ret (Some e, it2) ->
    Error it2 = None ->
    elementsRead readAny it2 vs it3 ->
    elementsRead readAny it (val e :: vs) it3.

(** The same for the fields of an object. *)
Inductive fieldsRead readAny
: Iterator -> list (string * interface) -> Iterator -> Prop :=
| fieldsRead_nil it : fieldsRead readAny it [] it
| fieldsRead_cons it field it1 e it2 kvs it3 :
    ReadObject it = (field, it1) ->
    field <> "" ->
    readAny it1 = Ret (Some e, it2) ->
    Error it2 = None ->
    fieldsRead readAny it2 kvs it3 ->
    fieldsRead readAny it ((field, val e) :: kvs) it3.

End Runs.

(** The mapping built from fields in document order: a later field
    replaces an earlier one of the same name. *)
Definition mappingOf (kvs : list (string * interface))
  : gmap string interface :=
  foldl (fun m kv => <[kv.1 := kv.2]> m) ∅ kvs.

(** ** Types, states and documents of the examples *)

Definition t_int : rtype := reflect.TBasic "int" reflect.Basic.Int.
Definition t_string : rtype := reflect.TBasic "string" reflect.Basic.String.
Definition t_Any : rtype := reflect.TStruct "jsoniter.Any" [].
Definition t_map_int_string : rtype :=
  reflect.TMap "map[int]string" t_int t_string.
Definition t_interface : rtype :=
  reflect.TBasic "interface {}" reflect.Basic.Interface.
Definition t_chan_int : rtype := reflect.TChan "chan int" t_int.
Definition storeNil : DecoderFunc := fun ptr st => storePointer ptr None st.

Definition populated : gmap loc cell :=
  {[ 1%positive := CPtr (Some 2%positive);
     2%positive := CVal (string_ "old") ]}.
Definition hello : string := quote +:+ "hello" +:+ quote.

Definition brokenObject : string :=
  "{" +:+ quote +:+ "a" +:+ quote +:+ ":1," +:+ quote +:+ "b" +:+ quote +:+ ":2-}".

Definition atByte (i : nat) (doc : string) : Iterator :=
  setHead i (ParseString doc).

(** What a rival goroutine does when it inserts an entry of its own. *)
Definition rivalInsert (cacheKey : rtype) (decoder : Decoder) (c : Cache)
  : Cache :=
  match addDecoderToCache [] cacheKey decoder c with
  | Ret c' => c'
  | _ => c
  end.

Ltac read_element v :=
  eapply (elementsRead_cons _ _ _ (mkAny v)); [vm_compute; reflexivity ..|].

Ltac read_field v :=
  eapply (fieldsRead_cons _ _ _ _ (mkAny v));
  [vm_compute; reflexivity|discriminate|vm_compute; reflexivity ..|].

(* ===================================================================== *)
(** * Further specification *)
(* ===================================================================== *)

(** ** The input a number is scanned from *)

(** The bytes [readNumber] accumulates. *)
Definition isNumberByte (c : ascii) : bool :=
  Ascii.eqb c "-" || isSignOrDigit c || isFloatMark c.

(** The longest prefix of number bytes. *)
Fixpoint numberPrefix (l : list ascii) : list ascii :=
  match l with
  | c :: rest => if isNumberByte c then c :: numberPrefix rest else []
  | [] => []
  end.

(** The input an iterator has not consumed yet: the buffer between
    [iter.head] and [iter.tail], then what the reader will still deliver. *)
Definition pendingInput (it : Iterator) : list ascii :=
  take (tail it - head it) (drop (head it) (buf it)) ++
  concat (match reader it with Some r => chunks r | None => [] end).

(** The error [loadMore] leaves when the input is exhausted. *)
Definition endOfInput (it : Iterator) : error :=
  match reader it with
  | Some r => failure r
  | None => EOF
  end.

(** The value of a sequence of decimal digits. *)
Definition decimalValue (digits : list ascii) : Z :=
  fold_left (fun n c => (n * 10 + strconv.digitOf c)%Z) digits 0%Z.

(** An iterator whose input arrives in three pieces: [12] in the buffer, then
    [34] and [5,6] from the reader. *)
Definition inPieces : Iterator :=
  mkIterator
    (Some (mkReader [list_ascii_of_string "34"; list_ascii_of_string "5,6"] EOF))
    (list_ascii_of_string "12") 0 2 None.

(** An iterator whose reader fails in the middle of a number. *)
Definition brokenReader : Iterator :=
  mkIterator (Some (mkReader [list_ascii_of_string "34"]
                             (errorString "connection reset")))
             (list_ascii_of_string "12") 0 2 None.

(** ** Sequences of insertions into the cache *)

(** One call of [addDecoderToCache] after the other, nothing interfering. *)
Fixpoint insertAll (entries : list (rtype * Decoder)) (c : Cache)
  : outcome Cache :=
  match entries with
  | [] => Ret c
  | entry :: entries' =>
      c' ← addDecoderToCache [] entry.1 entry.2 c;
      insertAll entries' c'
  end.

(** The mapping that results from assignments made in the order of a list. *)
Definition assignAll {K V : Type} `{Countable K} (m : gmap K V)
    (entries : list (K * V)) : gmap K V :=
  foldl (fun m entry => <[entry.1 := entry.2]> m) m entries.

(** ** Types whose compilation never reaches a struct *)

Fixpoint structFree (typ : rtype) : bool :=
  match typ with
  | reflect.TStruct _ _ => false
  | reflect.TSlice _ elem | reflect.TMap _ _ elem | reflect.TPtr _ elem =>
      structFree elem
  | _ => true
  end.

(** ** Where compilation descends *)

(** [descends reg typ path t]: compiling [typ] under the registry [reg]
    comes to compile [t], after passing the element types of the slices,
    maps and pointers on the way, none of which is named [jsoniter.Any] or
    has a decoder registered; [path] is the breadcrumb trail an error of [t]
    is given on the way back. *)
Inductive descends (reg : Registry) : rtype -> string -> rtype -> Prop :=
  | descends_here typ : descends reg typ "" typ
  | descends_slice name elem path t :
      name <> "jsoniter.Any" -> typeDecoders reg !! name = None ->
      descends reg elem path t ->
      descends reg (reflect.TSlice name elem) ("[slice]: " +:+ path) t
  | descends_map name key elem path t :
      name <> "jsoniter.Any" -> typeDecoders reg !! name = None ->
      descends reg elem path t ->
      descends reg (reflect.TMap name key elem) ("[map]: " +:+ path) t
  | descends_ptr name elem path t :
      name <> "jsoniter.Any" -> typeDecoders reg !! name = None ->
      descends reg elem path t ->
      descends reg (reflect.TPtr name elem) ("[optional]: " +:+ path) t.

(** The kinds [decoderOfPtr] has no case for. *)
Definition unsupportedKind (k : reflect.Kind) : Prop :=
  k ∈ [reflect.Uintptr; reflect.Complex64; reflect.Complex128; reflect.Array;
       reflect.Chan; reflect.Func; reflect.UnsafePointer].

(** Types built from the scalar kinds and the interface kind with slices,
    maps and pointers. *)
Fixpoint plainShape (typ : rtype) : bool :=
  match typ with
  | reflect.TBasic _ k =>
      bool_decide (¬ unsupportedKind (reflect.Basic.kind k))
  | reflect.TSlice _ elem | reflect.TMap _ _ elem | reflect.TPtr _ elem =>
      plainShape elem
  | _ => false
  end.

(** The type [*[]map[string]chan int] of a destination. *)
Definition t_nested : rtype :=
  reflect.TPtr "*[]map[string]chan int"
    (reflect.TSlice "[]map[string]chan int"
       (reflect.TMap "map[string]chan int" t_string t_chan_int)).

(** A cache in which the type [int] has been compiled. *)
Definition cacheWithInt : Cache :=
  mkCache 2%positive
          {[ 1%positive := ∅; 2%positive := {[ t_int := intDecoder ]} ]}.

(** A destination holding a nil pointer, with a quoted string to read. *)
Definition nilPointer : State :=
  mkState {[ 1%positive := CPtr None ]} (ParseString hello).

(** An iterator whose [tail] lies beyond its buffer. *)
Definition overlongTail : Iterator :=
  mkIterator None (list_ascii_of_string "1") 0 2 None.

(** An object in which the field [a] occurs twice. *)
Definition repeatedField : string :=
  "{" +:+ quote +:+ "a" +:+ quote +:+ ":1," +:+ quote +:+ "a" +:+ quote +:+ ":2}".

(* ===================================================================== *)
(** * Properties *)
(* ===================================================================== *)

(** ** The number scanner *)

Lemma ascii_classes (c : ascii) :
  (Ascii.eqb c "-" = true -> isFloatMark c = false) /\
  (isSignOrDigit c = true ->
   Ascii.eqb c "-" = false /\ isFloatMark c = false) /\
  (isFloatMark c = true -> Ascii.eqb c "-" = false).
Proof.
  destruct c as [[] [] [] [] [] [] [] []]; vm_compute; intuition congruence.
Qed.

Lemma eqb_minus_sym (c : ascii) : Ascii.eqb "-" c = Ascii.eqb c "-".
Proof. apply Ascii.eqb_sym. Qed.

Lemma scanBuf_flags (b : list ascii) (n i : nat) (s s' : numberScan)
    (stop : option nat) :
  scanBuf b n i s = Ret (s', stop) -> flagsAgree s -> flagsAgree s'.
Proof.
  revert i s. induction n as [|n IH]; intros i s; simpl.
  - intros [= <- _]. done.
  - destruct (b !! i) as [c|]; [|done].
    destruct (ascii_classes c) as (Hminus & Hdigit & Hmark).
    intros Hscan [Hf Hn].
    destruct (Ascii.eqb c "-") eqn:Ec.
    { apply IH in Hscan; [done|]. split; cbn [str foundFloat foundNegative]; rewrite existsb_app;
        cbn [existsb].
      - by rewrite <- Hf, (Hminus eq_refl), orb_false_r.
      - by rewrite eqb_minus_sym, Ec, !orb_true_r. }
    destruct (isSignOrDigit c) eqn:Ed.
    { destruct (Hdigit eq_refl) as [_ Hm].
      apply IH in Hscan; [done|]. split; cbn [str foundFloat foundNegative]; rewrite existsb_app;
        cbn [existsb].
      - by rewrite <- Hf, Hm, orb_false_r.
      - by rewrite <- Hn, eqb_minus_sym, Ec, orb_false_r. }
    destruct (isFloatMark c) eqn:Em.
    { apply IH in Hscan; [done|]. split; cbn [str foundFloat foundNegative]; rewrite existsb_app;
        cbn [existsb].
      - by rewrite Em, !orb_true_r.
      - by rewrite <- Hn, eqb_minus_sym, Ec, orb_false_r. }
    by intros; simplify_eq.
Qed.

Lemma numberLoop_flags (fuel : nat) (it it' : Iterator) (s s' : numberScan) :
  numberLoop fuel it s = Ret (s', it') -> flagsAgree s -> flagsAgree s'.
Proof.
  revert it s. induction fuel as [|fuel IH]; intros it s; simpl; [done|].
  destruct (scanBuf _ _ _ s) as [[s1 stop]| |] eqn:Escan; simpl; try done.
  intros Hloop Hs. pose proof (scanBuf_flags _ _ _ _ _ _ Escan Hs) as Hs1.
  destruct stop as [i|].
  - by simplify_eq.
  - destruct (loadMore it) as [[] it1]; [by eapply IH|by simplify_eq].
Qed.

(** The inner loop returns when the buffer reaches to [iter.tail]. *)
Lemma scanBuf_returns (b : list ascii) (n i : nat) (s : numberScan) :
  (0 < n -> i + n <= length b) ->
  exists s' stop, scanBuf b n i s = Ret (s', stop).
Proof.
  revert i s. induction n as [|n IH]; intros i s Hlen; simpl; [by eauto|].
  destruct (lookup_lt_is_Some_2 b i) as [c ->]; [lia|].
  repeat case_match; try (apply IH; lia); eauto.
Qed.

Lemma loadMore_true (it it' : Iterator) :
  loadMore it = (true, it') ->
  tail it' = length (buf it') /\ head it' = 0 /\ S (refills it') = refills it.
Proof.
  unfold loadMore, refills. destruct (reader it) as [[[|c rest] e]|]; simpl;
    intros; simplify_eq; done.
Qed.

(** The outer loop returns, and never for want of fuel. *)
Lemma numberLoop_returns (fuel : nat) (it : Iterator) (s : numberScan) :
  refills it < fuel -> tail it <= length (buf it) ->
  exists s' it', numberLoop fuel it s = Ret (s', it').
Proof.
  revert it s. induction fuel as [|fuel IH]; intros it s Hfuel Hlen; [lia|].
  simpl.
  destruct (scanBuf_returns (buf it) (tail it - head it) (head it) s)
    as (s1 & stop & ->).
  { lia. }
  simpl. destruct stop as [i|]; [by eauto|].
  destruct (loadMore it) as [[] it1] eqn:Eload; [|by eauto].
  apply loadMore_true in Eload as (Ht & _ & Hr). apply IH; lia.
Qed.

Lemma existsb_isFloatMark (l : list ascii) :
  existsb isFloatMark l =
  existsb (Ascii.eqb ".") l || existsb (Ascii.eqb "e") l
  || existsb (Ascii.eqb "E") l.
Proof.
  induction l as [|c l IH]; [done|]. cbn [existsb]. rewrite IH.
  unfold isFloatMark.
  rewrite (Ascii.eqb_sym c "."), (Ascii.eqb_sym c "e"), (Ascii.eqb_sym c "E").
  by repeat destruct (Ascii.eqb _ c); repeat destruct (existsb _ l).
Qed.

Lemma readNumber_after_scan `{FloatParser} (it it' : Iterator) (s : numberScan) :
  scanNumber it = Ret (s, it') -> pendingError it' = false ->
  readNumber it = Ret (classified (string_of_list_ascii (str s)) it').
Proof.
  intros Hscan Hpending. unfold readNumber. rewrite Hscan. simpl.
  rewrite Hpending.
  destruct (numberLoop_flags _ _ _ _ _ Hscan) as [Hf Hn]; [by split|].
  unfold classified, lexicalClass, contains.
  rewrite list_ascii_of_string_of_list_ascii.
  rewrite <- existsb_isFloatMark, <- Hf, <- Hn.
  destruct (foundFloat s); simpl.
  { by destruct (ParseFloat _) as [v [err|]]. }
  destruct (foundNegative s); simpl.
  { by destruct (strconv.ParseInt _) as [v [err|]]. }
  by destruct (strconv.ParseUint _) as [v [err|]].
Qed.

(** C1. The literal [readNumber] accumulates is classified by its characters
    alone: whenever the scan ends with no error pending other than the end of
    the input, the result is the float parsed by [ParseFloat] if the literal
    contains a dot or an exponent mark, else the signed integer parsed by
    [ParseInt] if it contains a minus sign, else the unsigned integer parsed by
    [ParseUint], and a failure of that parser is stored in the error slot with
    a nil result.  The scan itself always returns.  In particular [-42] is
    read as the signed -42, [42] as the unsigned 42, and [1.5] as the float
    the float parser returns for it. *)
Theorem readNumber_classification `{FloatParser} :
  (forall it : Iterator,
     tail it <= length (buf it) ->
     exists s it',
       scanNumber it = Ret (s, it') /\
       (pendingError it' = false ->
        readNumber it = Ret (classified (string_of_list_ascii (str s)) it'))) /\
  (exists it', readNumber (ParseString "-42") = Ret (MakeAny (int64_ (-42)), it')) /\
  (exists it', readNumber (ParseString "42") = Ret (MakeAny (uint64_ 42), it')) /\
  (forall v, ParseFloat "1.5" = (v, None) ->
     exists it', readNumber (ParseString "1.5") = Ret (MakeAny (float64_ v), it')).
Proof.
  split; [|split; [|split]].
  - intros it Hlen.
    destruct (numberLoop_returns (S (refills it)) it (mkScan [] false false))
      as (s & it' & Hscan); [lia|done|].
    exists s, it'. split; [done|]. by apply readNumber_after_scan.
  - eexists. vm_compute. reflexivity.
  - eexists. vm_compute. reflexivity.
  - intros v Hv. eexists. unfold readNumber.
    replace (scanNumber (ParseString "1.5")) with
      (Ret (mkScan (list_ascii_of_string "1.5") true false,
            setError EOF (ParseString "1.5"))) by (vm_compute; reflexivity).
    cbn. rewrite Hv. reflexivity.
Qed.

(** The general part of C1 at the document [42,] and the float part with the
    decimal parser of the scanner. *)
Lemma readNumber_classification_witness :
  (tail (ParseString "42,") <= length (buf (ParseString "42,")) /\
   exists s it',
     scanNumber (ParseString "42,") = Ret (s, it') /\
     (pendingError it' = false ->
      @readNumber Scanner.floats (ParseString "42,") =
      Ret (@classified Scanner.floats (string_of_list_ascii (str s)) it'))) /\
  (@ParseFloat Scanner.floats "1.5" =
     (S754_finite false 6755399441055744 (-52), None) /\
   exists it',
     @readNumber Scanner.floats (ParseString "1.5") =
     Ret (MakeAny (float64_ (S754_finite false 6755399441055744 (-52))), it')).
Proof.
  split.
  - split; [vm_compute; lia|].
    apply (proj1 (@readNumber_classification Scanner.floats)). vm_compute. lia.
  - split; [vm_compute; reflexivity|].
    apply (proj2 (proj2 (proj2 (@readNumber_classification Scanner.floats)))).
    vm_compute. reflexivity.
Defined.

(** When an error other than the end of the input is pending after the scan,
    nothing is parsed and the result is nil. *)
Lemma readNumber_pending `{FloatParser} (it it' : Iterator) (s : numberScan) :
  scanNumber it = Ret (s, it') -> pendingError it' = true ->
  readNumber it = Ret (None, it').
Proof.
  intros Hscan Hpending. unfold readNumber. rewrite Hscan. simpl.
  by rewrite Hpending.
Qed.

(** ** Compilation *)

Section CompileFacts.

Context `{NativeDecoders}.

Lemma decoderOfPtr_unfold (reg : Registry) (typ : rtype) :
  decoderOfPtr reg typ =
  if decide (reflect.Type_String typ = "jsoniter.Any") then inl anyDecoder
  else
    match typeDecoders reg !! reflect.Type_String typ with
    | Some typeDecoder => inl typeDecoder
    | None =>
        match typ with
        | reflect.TBasic _ reflect.Basic.String => inl stringDecoder
        | reflect.TBasic _ reflect.Basic.Int => inl intDecoder
        | reflect.TBasic _ reflect.Basic.Int8 => inl int8Decoder
        | reflect.TBasic _ reflect.Basic.Int16 => inl int16Decoder
        | reflect.TBasic _ reflect.Basic.Int32 => inl int32Decoder
        | reflect.TBasic _ reflect.Basic.Int64 => inl int64Decoder
        | reflect.TBasic _ reflect.Basic.Uint => inl uintDecoder
        | reflect.TBasic _ reflect.Basic.Uint8 => inl uint8Decoder
        | reflect.TBasic _ reflect.Basic.Uint16 => inl uint16Decoder
        | reflect.TBasic _ reflect.Basic.Uint32 => inl uint32Decoder
        | reflect.TBasic _ reflect.Basic.Uint64 => inl uint64Decoder
        | reflect.TBasic _ reflect.Basic.Float32 => inl float32Decoder
        | reflect.TBasic _ reflect.Basic.Float64 => inl float64Decoder
        | reflect.TBasic _ reflect.Basic.Bool => inl boolDecoder
        | reflect.TBasic _ reflect.Basic.Interface => inl interfaceDecoder
        | reflect.TStruct _ _ => decoderOfStruct reg typ
        | reflect.TSlice _ elem =>
            addTo "[slice]" (decoderOfSlice (decoderOfPtr reg) typ elem)
        | reflect.TMap _ _ elem =>
            addTo "[map]" (decoderOfMap (decoderOfPtr reg) typ elem)
        | reflect.TPtr _ elem =>
            addTo "[optional]" (decoderOfOptional (decoderOfPtr reg) elem)
        | _ => unsupported typ
        end
    end.
Proof. by destruct typ. Qed.

(** A type with a registered decoder, not named [jsoniter.Any], compiles to
    that decoder. *)
Lemma decoderOfPtr_registered (reg : Registry) (typ : rtype)
    (typeDecoder : Decoder) :
  reflect.Type_String typ <> "jsoniter.Any" ->
  typeDecoders reg !! reflect.Type_String typ = Some typeDecoder ->
  decoderOfPtr reg typ = inl typeDecoder.
Proof.
  intros Hname Hreg. rewrite decoderOfPtr_unfold, Hreg. by case_decide.
Qed.

(** The type named [jsoniter.Any] compiles to the any decoder. *)
Lemma decoderOfPtr_Any (reg : Registry) (typ : rtype) :
  reflect.Type_String typ = "jsoniter.Any" ->
  decoderOfPtr reg typ = inl anyDecoder.
Proof. intros Hname. rewrite decoderOfPtr_unfold. by case_decide. Qed.

(** C2, as the code has it.  A decoder registered under the name of a type
    is what compilation returns for the type, whatever its shape, provided
    the name is not [jsoniter.Any]; the type named [jsoniter.Any] compiles to
    the any decoder whatever is registered. *)
Theorem registered_decoder_precedence (reg : Registry) (typ : rtype)
    (fun_ : DecoderFunc) :
  (reflect.Type_String typ <> "jsoniter.Any" ->
   decoderOfPtr (RegisterTypeDecoder (reflect.Type_String typ) fun_ reg) typ
   = inl (funcDecoder fun_)) /\
  (reflect.Type_String typ <> "jsoniter.Any" ->
   forall typeDecoder,
     typeDecoders reg !! reflect.Type_String typ = Some typeDecoder ->
     decoderOfPtr reg typ = inl typeDecoder) /\
  (reflect.Type_String typ = "jsoniter.Any" ->
   decoderOfPtr (RegisterTypeDecoder (reflect.Type_String typ) fun_ reg) typ
   = inl anyDecoder).
Proof.
  split; [|split].
  - intros Hname. apply decoderOfPtr_registered; [done|].
    simpl. apply lookup_insert_eq.
  - intros Hname d Hd. by apply decoderOfPtr_registered.
  - intros Hname. by apply decoderOfPtr_Any.
Qed.

(** C3, as the code has it.  For a map type (not named [jsoniter.Any], with
    no decoder registered under its name) compilation looks at the element
    type alone: it returns a map decoder exactly when the element type
    compiles, and otherwise the element type's error behind the [[map]]
    breadcrumb.  The key type plays no part. *)
Theorem decoderOfPtr_map (reg : Registry) (typ key elem : rtype) :
  reflect.Type_Kind typ = reflect.Map ->
  reflect.Type_Key typ = Ret key ->
  reflect.Type_Elem typ = Ret elem ->
  reflect.Type_String typ <> "jsoniter.Any" ->
  typeDecoders reg !! reflect.Type_String typ = None ->
  (forall decoder,
     decoderOfPtr reg elem = inl decoder ->
     decoderOfPtr reg typ =
     inl (mapDecoder typ elem decoder (reflect.PtrTo typ))) /\
  (forall err,
     decoderOfPtr reg elem = inr err ->
     decoderOfPtr reg typ = inr (errorString ("[map]: " +:+ Error_ err))).
Proof.
  intros Hkind Hkey Helem Hname Hreg.
  destruct typ as [? []| | | |name key' elem'| |]; try discriminate Hkind.
  cbn in Hkey, Helem. simplify_eq.
  rewrite (decoderOfPtr_unfold reg (reflect.TMap _ _ _)), Hreg.
  case_decide; [done|].
  unfold decoderOfMap. split; intros ? ->; done.
Qed.

(** C4. A root type whose kind is not [Ptr] is refused with the error
    [expect ptr] and no decoder; for a root of kind [Ptr] the result is that
    of [decoderOfPtr] on the pointee, an error gaining the [ptr] prefix. *)
Theorem decoderOfType_root (reg : Registry) (typ : rtype) :
  (reflect.Type_Kind typ <> reflect.Ptr ->
   decoderOfType reg typ = inr (errorString "expect ptr")) /\
  (reflect.Type_Kind typ = reflect.Ptr ->
   exists elem,
     reflect.Type_Elem typ = Ret elem /\
     decoderOfType reg typ = addTo "ptr" (decoderOfPtr reg elem) /\
     (forall decoder, decoderOfPtr reg elem = inl decoder ->
                      decoderOfType reg typ = inl decoder) /\
     (forall err, decoderOfPtr reg elem = inr err ->
                  decoderOfType reg typ =
                  inr (errorString ("ptr: " +:+ Error_ err)))).
Proof.
  split.
  - by destruct typ as [? []| | | | | |].
  - intros Hkind. destruct typ as [? []| | | | |name elem|]; try done.
    exists elem. simpl. repeat split; by intros ? ->.
Qed.

(** C9. A type of kind [Interface], not named [jsoniter.Any] and with no
    decoder registered under its name, compiles to the interface decoder,
    and so does a pointer to it as a root. *)
Theorem decoderOfPtr_interface (reg : Registry) (typ : rtype) :
  reflect.Type_Kind typ = reflect.Interface ->
  reflect.Type_String typ <> "jsoniter.Any" ->
  typeDecoders reg !! reflect.Type_String typ = None ->
  decoderOfPtr reg typ = inl interfaceDecoder /\
  decoderOfType reg (reflect.PtrTo typ) = inl interfaceDecoder.
Proof.
  intros Hkind Hname Hreg.
  assert (decoderOfPtr reg typ = inl interfaceDecoder) as Hptr.
  { rewrite decoderOfPtr_unfold, Hreg. case_decide; [done|].
    by destruct typ as [? []| | | | | |]. }
  split; [done|]. unfold reflect.PtrTo. simpl. by rewrite Hptr.
Qed.

End CompileFacts.

(** C2, counterexample: a decoder registered for [jsoniter.Any] is in the
    registry, yet compilation returns the any decoder. *)
Lemma registered_Any_not_returned :
  let reg := RegisterTypeDecoder "jsoniter.Any" storeNil init_registry in
  reflect.Type_String t_Any = "jsoniter.Any" /\
  typeDecoders reg !! "jsoniter.Any" = Some (funcDecoder storeNil) /\
  @decoderOfPtr Scanner.decoders reg t_Any = inl anyDecoder /\
  @decoderOfPtr Scanner.decoders reg t_Any <> inl (funcDecoder storeNil).
Proof. repeat split; try reflexivity. discriminate. Qed.

Lemma registered_decoder_precedence_witness :
  reflect.Type_String t_int <> "jsoniter.Any" /\
  @decoderOfPtr Scanner.decoders
    (RegisterTypeDecoder "int" storeNil init_registry) t_int
  = inl (funcDecoder storeNil).
Proof.
  split; [discriminate|].
  apply (proj1 (@registered_decoder_precedence Scanner.decoders init_registry
                  t_int storeNil)).
  discriminate.
Defined.

(** C3, counterexample: a map keyed by integers compiles. *)
Lemma int_keyed_map_compiles :
  reflect.Type_Kind t_map_int_string = reflect.Map /\
  reflect.Type_Key t_map_int_string = Ret t_int /\
  reflect.Type_Kind t_int <> reflect.String /\
  @decoderOfPtr Scanner.decoders init_registry t_map_int_string =
  inl (mapDecoder t_map_int_string t_string stringDecoder
                  (reflect.PtrTo t_map_int_string)) /\
  @decoderOfType Scanner.decoders init_registry (reflect.PtrTo t_map_int_string) =
  inl (mapDecoder t_map_int_string t_string stringDecoder
                  (reflect.PtrTo t_map_int_string)).
Proof. repeat split; try reflexivity. discriminate. Qed.

Lemma decoderOfPtr_map_witness :
  @decoderOfPtr Scanner.decoders init_registry t_string = inl stringDecoder /\
  @decoderOfPtr Scanner.decoders init_registry t_map_int_string =
  inl (mapDecoder t_map_int_string t_string stringDecoder
                  (reflect.PtrTo t_map_int_string)).
Proof.
  split; [reflexivity|].
  apply (proj1 (@decoderOfPtr_map Scanner.decoders init_registry
                  t_map_int_string t_int t_string eq_refl eq_refl eq_refl
                  ltac:(discriminate) eq_refl)).
  reflexivity.
Defined.

Lemma decoderOfType_root_witness :
  (reflect.Type_Kind t_int <> reflect.Ptr /\
   @decoderOfType Scanner.decoders init_registry t_int =
   inr (errorString "expect ptr")) /\
  (reflect.Type_Kind (reflect.PtrTo t_int) = reflect.Ptr /\
   exists elem,
     reflect.Type_Elem (reflect.PtrTo t_int) = Ret elem /\
     @decoderOfType Scanner.decoders init_registry (reflect.PtrTo t_int) =
     addTo "ptr" (@decoderOfPtr Scanner.decoders init_registry elem)).
Proof.
  split.
  - split; [discriminate|].
    apply (proj1 (@decoderOfType_root Scanner.decoders init_registry t_int)).
    discriminate.
  - split; [reflexivity|].
    destruct (proj2 (@decoderOfType_root Scanner.decoders init_registry
                       (reflect.PtrTo t_int)) eq_refl) as (elem & He & Hd & _).
    exists elem. split; assumption.
Defined.

Lemma decoderOfPtr_interface_witness :
  reflect.Type_Kind t_interface = reflect.Interface /\
  @decoderOfPtr Scanner.decoders init_registry t_interface = inl interfaceDecoder /\
  @decoderOfType Scanner.decoders init_registry (reflect.PtrTo t_interface) =
  inl interfaceDecoder.
Proof.
  split; [reflexivity|].
  apply (@decoderOfPtr_interface Scanner.decoders init_registry t_interface);
    [reflexivity|discriminate|reflexivity].
Defined.

(** ** The optional decoder *)

Section DecodeFacts.

Context `{TokenSource} `{NativeDecoders}.

(** C5. The optional decoder at a target address [ptr].  On a null token it
    stores nil at the target.  On another token, with nil stored at the
    target, it allocates a variable that was not there before, zeroed at the
    value type, runs the value decoder on it and then stores its address at
    the target.  With an address already stored, it does nothing but run
    the value decoder at that address: it allocates nothing and stores
    nothing, so the stored address is still there unless the value decoder
    itself overwrote the target. *)
Theorem optionalDecoder_cases (valueType : rtype) (valueDecoder : Decoder)
    (ptr : loc) (st : State) :
  let run := decode (optionalDecoder valueType valueDecoder) ptr st in
  let st1 := setIter (ReadNil (iter st)).2 st in
  ((ReadNil (iter st)).1 = true ->
     run = storePointer ptr None st1 /\ loadPointer ptr run = None) /\
  ((ReadNil (iter st)).1 = false -> loadPointer ptr st = None ->
     let value := fresh (dom (heap st)) in
     let st2 := mkState (<[value := zeroValue valueType]> (heap st)) (iter st1) in
     heap st !! value = None /\
     run = storePointer ptr (Some value) (decode valueDecoder value st2) /\
     loadPointer ptr run = Some value) /\
  (forall existing,
     (ReadNil (iter st)).1 = false -> loadPointer ptr st = Some existing ->
     run = decode valueDecoder existing st1 /\
     (heap (decode valueDecoder existing st1) !! ptr = heap st !! ptr ->
      loadPointer ptr run = Some existing)).
Proof.
  cbn zeta. cbn [decode]. unfold optionalDecoder_decode.
  destruct (ReadNil (iter st)) as [isNil it] eqn:Enil. cbn [fst snd].
  split; [|split].
  - intros ->. split; [done|].
    unfold loadPointer, storePointer. cbn. by rewrite lookup_insert_eq.
  - intros -> Hnil.
    change (loadPointer ptr (setIter it st)) with (loadPointer ptr st).
    rewrite Hnil. cbn.
    split; [apply not_elem_of_dom, is_fresh|]. split; [done|].
    unfold loadPointer, storePointer. cbn. by rewrite lookup_insert_eq.
  - intros existing -> Hsome.
    change (loadPointer ptr (setIter it st)) with (loadPointer ptr st).
    rewrite Hsome. split; [done|].
    intros Hframe. unfold loadPointer in *. by rewrite Hframe.
Qed.

End DecodeFacts.

(** The three cases of C5 with the scanner: a null token over a populated
    pointer, a string over a nil pointer, a string over a populated pointer. *)
Lemma optionalDecoder_cases_witness :
  let run st :=
    @decode Scanner.source Scanner.decoders
            (optionalDecoder t_string stringDecoder) 1%positive st in
  ((@ReadNil Scanner.source (ParseString "null")).1 = true /\
   loadPointer 1%positive (run (mkState populated (ParseString "null"))) = None) /\
  ((@ReadNil Scanner.source (ParseString hello)).1 = false /\
   loadPointer 1%positive
     (mkState {[ 1%positive := CPtr None ]} (ParseString hello)) = None /\
   loadPointer 1%positive
     (run (mkState {[ 1%positive := CPtr None ]} (ParseString hello)))
   = Some 2%positive) /\
  ((@ReadNil Scanner.source (ParseString hello)).1 = false /\
   loadPointer 1%positive (mkState populated (ParseString hello))
   = Some 2%positive /\
   loadPointer 1%positive (run (mkState populated (ParseString hello)))
   = Some 2%positive).
Proof.
  cbn zeta. split; [|split].
  - split; [reflexivity|].
    apply (proj1 (@optionalDecoder_cases Scanner.source Scanner.decoders
                    t_string stringDecoder 1%positive
                    (mkState populated (ParseString "null")))).
    reflexivity.
  - split; [reflexivity|]. split; [reflexivity|].
    destruct (proj1 (proj2 (@optionalDecoder_cases Scanner.source
                              Scanner.decoders t_string stringDecoder 1%positive
                              (mkState {[ 1%positive := CPtr None ]}
                                       (ParseString hello)))))
      as (_ & _ & Hstored); [reflexivity|reflexivity|exact Hstored].
  - split; [reflexivity|]. split; [reflexivity|].
    apply (proj2 (proj2 (@optionalDecoder_cases Scanner.source Scanner.decoders
                           t_string stringDecoder 1%positive
                           (mkState populated (ParseString hello))))
             2%positive); reflexivity.
Defined.

(** ** The decoder cache *)

Lemma copyOf_eq (cache : gmap rtype Decoder) : copyOf cache = cache.
Proof.
  unfold copyOf.
  apply (map_fold_weak_ind (fun copy cache => copy = cache)); [done|].
  by intros k v m copy _ ->.
Qed.

(** C6. With nothing interfering, [addDecoderToCache] returns with
    [DECODERS] pointing to a new map object that equals the previous snapshot
    plus the new entry.  Afterwards [getDecoderFromCache] returns the inserted
    decoder for the inserted type and, for every other type, what it returned
    before; every map object that existed before, the previous snapshot among
    them, is as it was. *)
Theorem addDecoderToCache_copy_on_write (c : Cache) (cacheKey : rtype)
    (decoder : Decoder) (cache : gmap rtype Decoder) :
  objects c !! DECODERS c = Some cache ->
  exists c',
    addDecoderToCache [] cacheKey decoder c = Ret c' /\
    objects c !! DECODERS c' = None /\
    objects c' !! DECODERS c' = Some (<[cacheKey := decoder]> cache) /\
    getDecoderFromCache cacheKey c' = Ret (Some decoder) /\
    (forall other, other <> cacheKey ->
       getDecoderFromCache other c' = getDecoderFromCache other c) /\
    (forall l m, objects c !! l = Some m -> objects c' !! l = Some m) /\
    objects c' !! DECODERS c = Some cache.
Proof.
  intros Hcache. unfold addDecoderToCache. rewrite Hcache, copyOf_eq.
  unfold newObject, CompareAndSwapPointer. cbn.
  rewrite decide_True by done.
  set (new := fresh (dom (objects c))).
  assert (objects c !! new = None) as Hnew
    by apply not_elem_of_dom, is_fresh.
  eexists. split; [done|]. cbn.
  assert (forall l m, objects c !! l = Some m ->
            <[new := <[cacheKey := decoder]> cache]> (objects c) !! l = Some m)
    as Hframe.
  { intros l m Hl. rewrite lookup_insert_ne; [done|]. congruence. }
  unfold getDecoderFromCache. cbn. rewrite lookup_insert_eq, Hcache.
  repeat split; try done.
  - by rewrite lookup_insert_eq.
  - intros other Hother. by rewrite lookup_insert_ne.
  - by apply Hframe.
Qed.

Lemma addDecoderToCache_copy_on_write_witness :
  objects init_cache !! DECODERS init_cache = Some ∅ /\
  exists c',
    addDecoderToCache [] t_int intDecoder init_cache = Ret c' /\
    getDecoderFromCache t_int c' = Ret (Some intDecoder) /\
    getDecoderFromCache t_string c' = getDecoderFromCache t_string init_cache /\
    objects c' !! DECODERS init_cache = Some ∅.
Proof.
  split; [reflexivity|].
  destruct (addDecoderToCache_copy_on_write init_cache t_int intDecoder ∅ eq_refl)
    as (c' & Hadd & _ & _ & Hget & Hother & _ & Hold).
  exists c'. repeat split; [exact Hadd|exact Hget| |exact Hold].
  apply Hother. discriminate.
Defined.

(** A rival that swaps in its own snapshot between the load and the
    compare-and-swap makes the first turn fail; the second turn starts from
    the rival's snapshot, and both entries end up in the cache. *)
Example lost_race_is_retried :
  exists c',
    addDecoderToCache [rivalInsert t_string stringDecoder] t_int intDecoder
                      init_cache = Ret c' /\
    getDecoderFromCache t_int c' = Ret (Some intDecoder) /\
    getDecoderFromCache t_string c' = Ret (Some stringDecoder).
Proof. eexists. split; [vm_compute; reflexivity|]. split; reflexivity. Qed.

(** ** The entry point *)

Section ReadFacts.

Context `{TokenSource} `{NativeDecoders}.

(** C7. When [Read] misses the cache and compilation of the type fails, the
    error is stored in the iterator's error slot, the memory is not written,
    and the cache is returned as it was, so the type is still absent from
    it; every later [Read] of a value of that type, from whatever state,
    compiles again and ends the same way. *)
Theorem Read_compile_failure (reg : Registry) (obj : emptyInterface)
    (c : Cache) (st : State) (cacheKey : rtype) (err : error) :
  reflect.Type_Elem (typ obj) = Ret cacheKey ->
  getDecoderFromCache cacheKey c = Ret None ->
  decoderOfType reg (typ obj) = inr err ->
  exists st',
    Read reg obj c st = Ret (c, st') /\
    Error (iter st') = Some err /\
    heap st' = heap st /\
    getDecoderFromCache cacheKey c = Ret None /\
    (forall obj2 st2,
       typ obj2 = typ obj ->
       exists st2',
         Read reg obj2 c st2 = Ret (c, st2') /\
         Error (iter st2') = Some err).
Proof.
  intros Helem Hmiss Hfail.
  assert (forall obj2 st2, typ obj2 = typ obj ->
            Read reg obj2 c st2 =
            Ret (c, setIter (setError err (iter st2)) st2)) as Hread.
  { intros obj2 st2 Htyp. unfold Read. rewrite Htyp, Helem. cbn.
    rewrite Hmiss. cbn. by rewrite Hfail. }
  eexists. split; [by apply Hread|]. repeat split; try done.
  intros obj2 st2 Htyp. eexists. split; [by apply Hread|done].
Qed.

End ReadFacts.

Lemma Read_compile_failure_witness :
  let obj := mkInterface (reflect.PtrTo t_chan_int) 1%positive in
  let st := mkState {[ 1%positive := CPtr None ]} (ParseString "1") in
  reflect.Type_Elem (typ obj) = Ret t_chan_int /\
  getDecoderFromCache t_chan_int init_cache = Ret None /\
  @decoderOfType Scanner.decoders init_registry (typ obj) =
    inr (errorString "ptr: unsupported type: chan int") /\
  exists st',
    @Read Scanner.source Scanner.decoders init_registry obj init_cache st =
      Ret (init_cache, st') /\
    Error (iter st') = Some (errorString "ptr: unsupported type: chan int").
Proof.
  cbn zeta. split; [reflexivity|]. split; [reflexivity|]. split; [reflexivity|].
  destruct (@Read_compile_failure Scanner.source Scanner.decoders init_registry
              (mkInterface (reflect.PtrTo t_chan_int) 1%positive) init_cache
              (mkState {[ 1%positive := CPtr None ]} (ParseString "1"))
              t_chan_int (errorString "ptr: unsupported type: chan int")
              eq_refl eq_refl eq_refl) as (st' & Hread & Herr & _).
  exists st'. split; assumption.
Defined.

(** ** ReadAny *)

Section ReadAnyFacts.

Context `{TokenSource} `{FloatParser}.

Implicit Types (readAny : Iterator -> outcome (option Any * Iterator)).

Lemma hasError_false (it : Iterator) : Error it = None -> hasError it = false.
Proof. unfold hasError. by intros ->. Qed.

Lemma hasError_true (it : Iterator) : Error it <> None -> hasError it = true.
Proof. unfold hasError. by destruct (Error it). Qed.

Lemma readElements_run readAny it vs it' :
  elementsRead readAny it vs it' ->
  forall k acc,
    readElements readAny (length vs + k) acc it =
    readElements readAny k (acc ++ vs) it'.
Proof.
  induction 1 as [it|it it1 e it2 vs it3 Harr Hany Herr _ IH]; intros k acc.
  - by rewrite app_nil_r.
  - cbn [length Nat.add readElements]. rewrite Harr, Hany. cbn.
    rewrite (hasError_false _ Herr), IH. by rewrite <- app_assoc.
Qed.

Lemma readFields_run readAny it kvs it' :
  fieldsRead readAny it kvs it' ->
  forall k acc,
    readFields readAny (length kvs + k) acc it =
    readFields readAny k (foldl (fun m kv => <[kv.1 := kv.2]> m) acc kvs) it'.
Proof.
  induction 1 as [it|it field it1 e it2 kvs it3 Hobj Hne Hany Herr _ IH];
    intros k acc; [done|].
  cbn [length Nat.add readFields]. rewrite Hobj, Hany.
  rewrite decide_False by done. cbn.
  by rewrite (hasError_false _ Herr), IH.
Qed.

(** The array loop after [vs]: it ends with the whole sequence when the
    source announces no further element, and with nil, in the state the
    element's parse left, when the next element's parse leaves an error. *)
Lemma readElements_end readAny it vs itn itEnd n :
  elementsRead readAny it vs itn -> ReadArray itn = (false, itEnd) ->
  length vs < n ->
  readElements readAny n [] it = Ret (MakeAny (slice_ vs), itEnd).
Proof.
  intros Hrun Hend Hn.
  replace n with (length vs + S (n - length vs - 1)) by lia.
  rewrite (readElements_run _ _ _ _ Hrun). cbn. by rewrite Hend.
Qed.

Lemma readElements_stop readAny it vs itn it1 r it2 n :
  elementsRead readAny it vs itn -> ReadArray itn = (true, it1) ->
  readAny it1 = Ret (r, it2) -> Error it2 <> None ->
  length vs < n ->
  readElements readAny n [] it = Ret (None, it2).
Proof.
  intros Hrun Hmore Hany Herr Hn.
  replace n with (length vs + S (n - length vs - 1)) by lia.
  rewrite (readElements_run _ _ _ _ Hrun). cbn. rewrite Hmore, Hany. cbn.
  by rewrite (hasError_true _ Herr).
Qed.

Lemma readFields_end readAny it kvs itn itEnd n :
  fieldsRead readAny it kvs itn -> ReadObject itn = ("", itEnd) ->
  length kvs < n ->
  readFields readAny n ∅ it = Ret (MakeAny (map_ (mappingOf kvs)), itEnd).
Proof.
  intros Hrun Hend Hn.
  replace n with (length kvs + S (n - length kvs - 1)) by lia.
  rewrite (readFields_run _ _ _ _ Hrun). cbn. by rewrite Hend.
Qed.

Lemma readFields_stop readAny it kvs itn field it1 r it2 n :
  fieldsRead readAny it kvs itn -> ReadObject itn = (field, it1) ->
  field <> "" ->
  readAny it1 = Ret (r, it2) -> Error it2 <> None ->
  length kvs < n ->
  readFields readAny n ∅ it = Ret (None, it2).
Proof.
  intros Hrun Hmore Hne Hany Herr Hn.
  replace n with (length kvs + S (n - length kvs - 1)) by lia.
  rewrite (readFields_run _ _ _ _ Hrun). cbn. rewrite Hmore, Hany.
  rewrite decide_False by done. cbn.
  by rewrite (hasError_true _ Herr).
Qed.

(** C8. On an array token [ReadAny] parses the elements in document order:
    when the source announces no further element the result is the sequence
    of their values in that order; when the parse of the next element leaves
    an error in the slot, [ReadAny] returns at once, the iterator being as
    that parse left it.  On an object token the same holds for the fields
    and the text-keyed mapping built from them.  On a token that starts none
    of the six kinds of value, the error [unexpected value type] is
    reported under the operation [ReadAny]. *)
Theorem ReadAny_composites (fuel : nat) (it it0 : Iterator) :
  (WhatIsNext it = (ValueType.Array, it0) ->
   forall vs itn,
     elementsRead (ReadAny fuel) it0 vs itn -> length vs < fuel ->
     (forall itEnd,
        ReadArray itn = (false, itEnd) ->
        ReadAny (S fuel) it = Ret (MakeAny (slice_ vs), itEnd)) /\
     (forall it1 r it2,
        ReadArray itn = (true, it1) ->
        ReadAny fuel it1 = Ret (r, it2) -> Error it2 <> None ->
        exists ret, ReadAny (S fuel) it = Ret (ret, it2))) /\
  (WhatIsNext it = (ValueType.Object, it0) ->
   forall kvs itn,
     fieldsRead (ReadAny fuel) it0 kvs itn -> length kvs < fuel ->
     (forall itEnd,
        ReadObject itn = ("", itEnd) ->
        ReadAny (S fuel) it = Ret (MakeAny (map_ (mappingOf kvs)), itEnd)) /\
     (forall field it1 r it2,
        ReadObject itn = (field, it1) -> field <> "" ->
        ReadAny fuel it1 = Ret (r, it2) -> Error it2 <> None ->
        exists ret, ReadAny (S fuel) it = Ret (ret, it2))) /\
  (forall valueType,
     WhatIsNext it = (valueType, it0) -> ~ representable valueType ->
     exists ret,
       ReadAny (S fuel) it =
       Ret (ret, reportError "ReadAny"
                   ("unexpected value type: " +:+ formatValueType valueType)
                   it0)).
Proof.
  split; [|split].
  - intros Hkind vs itn Hrun Hn. split.
    + intros itEnd Hend. cbn [ReadAny]. rewrite Hkind.
      by eapply readElements_end.
    + intros it1 r it2 Hmore Hany Herr. exists None.
      cbn [ReadAny]. rewrite Hkind. by eapply readElements_stop.
  - intros Hkind kvs itn Hrun Hn. split.
    + intros itEnd Hend. cbn [ReadAny]. rewrite Hkind.
      by eapply readFields_end.
    + intros field it1 r it2 Hmore Hne Hany Herr. exists None.
      cbn [ReadAny]. rewrite Hkind. by eapply readFields_stop.
  - intros valueType Hkind Hother. eexists. cbn [ReadAny]. rewrite Hkind.
    destruct valueType; try done; exfalso; apply Hother; unfold representable;
      set_solver.
Qed.

(** C10. When the parse of an element of an array, or of a field of an
    object, leaves an error in the slot, [ReadAny] returns nil, whatever
    had been accumulated before; on a token that starts no value it
    returns an [Any] that is not nil and holds the null value, next to the
    reported error. *)
Theorem ReadAny_nil_on_nested_error (fuel : nat) (it it0 : Iterator) :
  (WhatIsNext it = (ValueType.Array, it0) ->
   forall vs itn it1 r it2,
     elementsRead (ReadAny fuel) it0 vs itn -> length vs < fuel ->
     ReadArray itn = (true, it1) ->
     ReadAny fuel it1 = Ret (r, it2) -> Error it2 <> None ->
     ReadAny (S fuel) it = Ret (None, it2)) /\
  (WhatIsNext it = (ValueType.Object, it0) ->
   forall kvs itn field it1 r it2,
     fieldsRead (ReadAny fuel) it0 kvs itn -> length kvs < fuel ->
     ReadObject itn = (field, it1) -> field <> "" ->
     ReadAny fuel it1 = Ret (r, it2) -> Error it2 <> None ->
     ReadAny (S fuel) it = Ret (None, it2)) /\
  (forall valueType,
     WhatIsNext it = (valueType, it0) -> ~ representable valueType ->
     ReadAny (S fuel) it =
     Ret (Some (mkAny nil_),
          reportError "ReadAny"
            ("unexpected value type: " +:+ formatValueType valueType) it0)).
Proof.
  split; [|split].
  - intros Hkind vs itn it1 r it2 Hrun Hn Hmore Hany Herr.
    cbn [ReadAny]. rewrite Hkind. by eapply readElements_stop.
  - intros Hkind kvs itn field it1 r it2 Hrun Hn Hmore Hne Hany Herr.
    cbn [ReadAny]. rewrite Hkind. by eapply readFields_stop.
  - intros valueType Hkind Hother. cbn [ReadAny]. rewrite Hkind.
    destruct valueType; try done; exfalso; apply Hother; unfold representable;
      set_solver.
Qed.

End ReadAnyFacts.

(** A witness of C8 with the scanner: the document [[1,2]] is read as the
    sequence of 1 and 2, and in [[1,2-]] the reading stops where the parse of
    the second element left the iterator. *)
Lemma ReadAny_composites_witness :
  (@WhatIsNext Scanner.source (ParseString "[1,2]") =
     (ValueType.Array, ParseString "[1,2]") /\
   @ReadAny Scanner.source Scanner.floats 4 (ParseString "[1,2]") =
     Ret (MakeAny (slice_ [uint64_ 1; uint64_ 2]), atByte 5 "[1,2]")) /\
  (@WhatIsNext Scanner.source (ParseString "[1,2-]") =
     (ValueType.Array, ParseString "[1,2-]") /\
   exists ret,
     @ReadAny Scanner.source Scanner.floats 3 (ParseString "[1,2-]") =
     Ret (ret, setError (NumError "ParseInt" "2-" ErrSyntax) (atByte 5 "[1,2-]"))) /\
  (@WhatIsNext Scanner.source (ParseString "?") =
     (ValueType.Invalid, ParseString "?") /\
   ~ representable ValueType.Invalid /\
   exists ret,
     @ReadAny Scanner.source Scanner.floats 1 (ParseString "?") =
     Ret (ret, setError (errorString "ReadAny: unexpected value type: 0")
                        (ParseString "?"))).
Proof.
  assert (~ representable ValueType.Invalid) as Hother.
  { unfold representable. intros Hin. apply (bool_decide_pack _) in Hin.
    vm_compute in Hin. exact Hin. }
  split; [|split]; (split; [reflexivity|]).
  3: { split; [exact Hother|].
       exact (proj2 (proj2 (@ReadAny_composites Scanner.source Scanner.floats 0
                              (ParseString "?") (ParseString "?")))
                ValueType.Invalid eq_refl Hother). }
  - eapply (proj1 (proj1 (@ReadAny_composites Scanner.source Scanner.floats 3
                            (ParseString "[1,2]") (ParseString "[1,2]"))
                     eq_refl [uint64_ 1; uint64_ 2] (atByte 4 "[1,2]") _ _)).
    reflexivity.
    Unshelve.
    + read_element (uint64_ 1). read_element (uint64_ 2). apply elementsRead_nil.
    + simpl. lia.
  - eapply (proj2 (proj1 (@ReadAny_composites Scanner.source Scanner.floats 2
                            (ParseString "[1,2-]") (ParseString "[1,2-]"))
                     eq_refl [uint64_ 1] (atByte 2 "[1,2-]") _ _)
              (atByte 3 "[1,2-]") None).
    + reflexivity.
    + reflexivity.
    + discriminate.
    Unshelve.
    * read_element (uint64_ 1). apply elementsRead_nil.
    * simpl. lia.
Defined.

(** A witness of C10 with the scanner: the array [[1,2-]] and the object
    with the fields [a] = 1 and [b] = 2- are read as nil, although a first
    element or field had been parsed. *)
Lemma ReadAny_nil_on_nested_error_witness :
  (@WhatIsNext Scanner.source (ParseString "[1,2-]") =
     (ValueType.Array, ParseString "[1,2-]") /\
   @ReadAny Scanner.source Scanner.floats 3 (ParseString "[1,2-]") =
     Ret (None, setError (NumError "ParseInt" "2-" ErrSyntax)
                         (atByte 5 "[1,2-]"))) /\
  (@WhatIsNext Scanner.source (ParseString brokenObject) =
     (ValueType.Object, ParseString brokenObject) /\
   @ReadAny Scanner.source Scanner.floats 3 (ParseString brokenObject) =
     Ret (None, setError (NumError "ParseInt" "2-" ErrSyntax)
                         (atByte 13 brokenObject))) /\
  (@WhatIsNext Scanner.source (ParseString "?") =
     (ValueType.Invalid, ParseString "?") /\
   ~ representable ValueType.Invalid /\
   @ReadAny Scanner.source Scanner.floats 1 (ParseString "?") =
     Ret (Some (mkAny nil_),
          setError (errorString "ReadAny: unexpected value type: 0")
                   (ParseString "?"))).
Proof.
  assert (~ representable ValueType.Invalid) as Hother.
  { unfold representable. intros Hin. apply (bool_decide_pack _) in Hin.
    vm_compute in Hin. exact Hin. }
  split; [|split]; (split; [reflexivity|]).
  3: { split; [exact Hother|].
       exact (proj2 (proj2 (@ReadAny_nil_on_nested_error Scanner.source
                              Scanner.floats 0 (ParseString "?")
                              (ParseString "?")))
                ValueType.Invalid eq_refl Hother). }
  - eapply (proj1 (@ReadAny_nil_on_nested_error Scanner.source Scanner.floats 2
                     (ParseString "[1,2-]") (ParseString "[1,2-]"))
              eq_refl [uint64_ 1] (atByte 2 "[1,2-]") (atByte 3 "[1,2-]") None).
    + read_element (uint64_ 1). apply elementsRead_nil.
    + simpl. lia.
    + reflexivity.
    + reflexivity.
    + discriminate.
  - eapply (proj1 (proj2 (@ReadAny_nil_on_nested_error Scanner.source
                            Scanner.floats 2 (ParseString brokenObject)
                            (ParseString brokenObject)))
              eq_refl [("a", uint64_ 1)] (atByte 6 brokenObject) "b"
              (atByte 11 brokenObject) None).
    + read_field (uint64_ 1). apply fieldsRead_nil.
    + simpl. lia.
    + reflexivity.
    + discriminate.
    + reflexivity.
    + discriminate.
Defined.

(** ** Nil results, and the step budget *)

Section ReadAnyResults.

Context `{TokenSource} `{FloatParser}.

Implicit Types (readAny : Iterator -> outcome (option Any * Iterator)).

Lemma readNumber_nil (it it' : Iterator) :
  readNumber it = Ret (None, it') -> Error it' <> None.
Proof.
  unfold readNumber. destruct (scanNumber it) as [[s it1]| |]; [|done..].
  cbn. unfold pendingError, MakeAny.
  destruct (Error it1) as [[]|] eqn:Herr;
    repeat case_match; intros; simplify_eq; cbn; congruence.
Qed.

Lemma readElements_nil readAny n acc it it' :
  readElements readAny n acc it = Ret (None, it') -> Error it' <> None.
Proof.
  revert acc it. induction n as [|n IH]; intros acc it; cbn; [done|].
  destruct (ReadArray it) as [[] it1]; [|done].
  destruct (readAny it1) as [[element it2]| |]; cbn; [|done..].
  unfold hasError. destruct (Error it2) eqn:Herr.
  - intros; simplify_eq. congruence.
  - destruct element; [apply IH|done].
Qed.

Lemma readFields_nil readAny n acc it it' :
  readFields readAny n acc it = Ret (None, it') -> Error it' <> None.
Proof.
  revert acc it. induction n as [|n IH]; intros acc it; cbn; [done|].
  destruct (ReadObject it) as [field it1]. case_decide; [done|].
  destruct (readAny it1) as [[element it2]| |]; cbn; [|done..].
  unfold hasError. destruct (Error it2) eqn:Herr.
  - intros; simplify_eq. congruence.
  - destruct element; [apply IH|done].
Qed.

(** [ReadAny] returns nil only with an error in the slot. *)
Lemma ReadAny_nil (fuel : nat) (it it' : Iterator) :
  ReadAny fuel it = Ret (None, it') -> Error it' <> None.
Proof.
  destruct fuel as [|fuel]; cbn; [done|].
  destruct (WhatIsNext it) as [[] it0]; try done.
  - by destruct (ReadString it0).
  - apply readNumber_nil.
  - by destruct (ReadBool it0).
  - apply readElements_nil.
  - apply readFields_nil.
Qed.

(** Hence [element.val] never dereferences nil. *)
Lemma readElements_no_nil_dereference readAny n acc it :
  (forall it1 it2, readAny it1 = Ret (None, it2) -> Error it2 <> None) ->
  (forall it1, readAny it1 <> Panic nilDereference) ->
  readElements readAny n acc it <> Panic nilDereference.
Proof.
  intros Hnil Hpanic. revert acc it.
  induction n as [|n IH]; intros acc it; cbn; [done|].
  destruct (ReadArray it) as [[] it1]; [|done].
  destruct (readAny it1) as [[element it2]|why|] eqn:Hany; cbn; [| |done].
  - unfold hasError. destruct (Error it2) eqn:Herr; [done|].
    destruct element; [apply IH|]. by apply Hnil in Hany.
  - intros [= ->]. by apply (Hpanic it1).
Qed.

Lemma readFields_no_nil_dereference readAny n acc it :
  (forall it1 it2, readAny it1 = Ret (None, it2) -> Error it2 <> None) ->
  (forall it1, readAny it1 <> Panic nilDereference) ->
  readFields readAny n acc it <> Panic nilDereference.
Proof.
  intros Hnil Hpanic. revert acc it.
  induction n as [|n IH]; intros acc it; cbn; [done|].
  destruct (ReadObject it) as [field it1]. case_decide; [done|].
  destruct (readAny it1) as [[element it2]|why|] eqn:Hany; cbn; [| |done].
  - unfold hasError. destruct (Error it2) eqn:Herr; [done|].
    destruct element; [apply IH|]. by apply Hnil in Hany.
  - intros [= ->]. by apply (Hpanic it1).
Qed.

Lemma scanBuf_panic (b : list ascii) (n i : nat) (s : numberScan) (why : string) :
  scanBuf b n i s = Panic why -> why = "index out of range".
Proof.
  revert i s. induction n as [|n IH]; intros i s; cbn; [done|].
  destruct (b !! i); [|by intros [= <-]].
  repeat case_match; try done; apply IH.
Qed.

Lemma numberLoop_panic (fuel : nat) (it : Iterator) (s : numberScan)
    (why : string) :
  numberLoop fuel it s = Panic why -> why = "index out of range".
Proof.
  revert it s. induction fuel as [|fuel IH]; intros it s; cbn; [done|].
  destruct (scanBuf _ _ _ s) as [[s1 stop]|why'|] eqn:Escan; cbn; [| |done].
  - destruct stop; [done|]. destruct (loadMore it) as [[] it1]; [apply IH|done].
  - intros [= <-]. by eapply scanBuf_panic.
Qed.

Lemma ReadAny_no_nil_dereference (fuel : nat) (it : Iterator) :
  ReadAny fuel it <> Panic nilDereference.
Proof.
  revert it. induction fuel as [|fuel IH]; intros it; [done|].
  cbn [ReadAny].
  destruct (WhatIsNext it) as [[] it0]; try done.
  - by destruct (ReadString it0).
  - unfold readNumber, scanNumber.
    destruct (numberLoop (S (refills it0)) it0 (mkScan [] false false))
      as [[s it1]|why|] eqn:Hloop; [| |done].
    + cbn. repeat case_match; done.
    + apply numberLoop_panic in Hloop as ->. done.
  - by destruct (ReadBool it0).
  - apply readElements_no_nil_dereference; [apply ReadAny_nil|apply IH].
  - apply readFields_no_nil_dereference; [apply ReadAny_nil|apply IH].
Qed.

(** A result obtained with some fuel is obtained with any larger fuel. *)
Lemma readElements_mono readAny readAny' n n' acc it r :
  (forall it1 r1, readAny it1 = Ret r1 -> readAny' it1 = Ret r1) ->
  n <= n' ->
  readElements readAny n acc it = Ret r ->
  readElements readAny' n' acc it = Ret r.
Proof.
  intros Hsub. revert n' acc it.
  induction n as [|n IH]; intros n' acc it Hle; cbn; [done|].
  destruct n' as [|n']; [lia|]. cbn.
  destruct (ReadArray it) as [[] it1]; [|done].
  destruct (readAny it1) as [[element it2]| |] eqn:Hany; cbn; [|done..].
  rewrite (Hsub _ _ Hany). cbn.
  destruct (hasError it2); [done|]. destruct element; [|done].
  apply IH. lia.
Qed.

Lemma readFields_mono readAny readAny' n n' acc it r :
  (forall it1 r1, readAny it1 = Ret r1 -> readAny' it1 = Ret r1) ->
  n <= n' ->
  readFields readAny n acc it = Ret r ->
  readFields readAny' n' acc it = Ret r.
Proof.
  intros Hsub. revert n' acc it.
  induction n as [|n IH]; intros n' acc it Hle; cbn; [done|].
  destruct n' as [|n']; [lia|]. cbn.
  destruct (ReadObject it) as [field it1]. case_decide; [done|].
  destruct (readAny it1) as [[element it2]| |] eqn:Hany; cbn; [|done..].
  rewrite (Hsub _ _ Hany). cbn.
  destruct (hasError it2); [done|]. destruct element; [|done].
  apply IH. lia.
Qed.

Lemma ReadAny_mono (fuel fuel' : nat) (it : Iterator)
    (r : option Any * Iterator) :
  fuel <= fuel' -> ReadAny fuel it = Ret r -> ReadAny fuel' it = Ret r.
Proof.
  revert fuel' it r. induction fuel as [|fuel IH]; intros fuel' it r Hle;
    cbn; [done|].
  destruct fuel' as [|fuel']; [lia|]. cbn.
  destruct (WhatIsNext it) as [[] it0]; try done.
  - apply readElements_mono; [|lia]. intros it1 r1. apply IH. lia.
  - apply readFields_mono; [|lia]. intros it1 r1. apply IH. lia.
Qed.

End ReadAnyResults.

(** ** Documents of the specification, read with the scanner *)

Example ReadAny_sequence :
  @ReadAny Scanner.source Scanner.floats 5 (ParseString "[1,2,3]") =
  Ret (MakeAny (slice_ [uint64_ 1; uint64_ 2; uint64_ 3]), atByte 7 "[1,2,3]").
Proof. vm_compute. reflexivity. Qed.

Example ReadAny_mapping :
  let doc := "{" +:+ quote +:+ "a" +:+ quote +:+ ":1}" in
  @ReadAny Scanner.source Scanner.floats 4 (ParseString doc) =
  Ret (MakeAny (map_ {[ "a" := uint64_ 1 ]}), atByte 7 doc).
Proof. vm_compute. reflexivity. Qed.

Example Read_pointer_to_string :
  let obj := mkInterface (reflect.PtrTo (reflect.PtrTo t_string)) 1%positive in
  let st := mkState {[ 1%positive := CPtr None ]} (ParseString hello) in
  exists c st',
    @Read Scanner.source Scanner.decoders init_registry obj init_cache st =
      Ret (c, st') /\
    getDecoderFromCache (reflect.PtrTo t_string) c =
      Ret (Some (optionalDecoder t_string stringDecoder)) /\
    loadPointer 1%positive st' = Some 2%positive /\
    heap st' !! 2%positive = Some (CVal (string_ "hello")) /\
    Error (iter st') = None.
Proof. do 2 eexists. split; [vm_compute; reflexivity|]. repeat split. Qed.

(* ===================================================================== *)
(** * Further properties *)
(* ===================================================================== *)

Local Open Scope list_scope.

(** ** The scan of a number and the input *)

Lemma numberPrefix_app_all (l rest : list ascii) :
  numberPrefix l = l -> numberPrefix (l ++ rest) = l ++ numberPrefix rest.
Proof.
  induction l as [|c l IH]; [done|]. cbn.
  destruct (isNumberByte c); [|done]. intros [= Hl]. by rewrite IH.
Qed.

Lemma numberPrefix_app_stop (l rest : list ascii) :
  numberPrefix l <> l -> numberPrefix (l ++ rest) = numberPrefix l.
Proof.
  induction l as [|c l IH]; [done|]. cbn.
  destruct (isNumberByte c); [|done]. intros Hl. rewrite IH; [done|].
  intros Heq. apply Hl. by rewrite Heq.
Qed.

Lemma numberPrefix_length (l : list ascii) :
  length (numberPrefix l) <= length l.
Proof.
  induction l as [|c l IH]; [done|]. cbn.
  destruct (isNumberByte c); cbn; lia.
Qed.

Lemma numberPrefix_all_length (l : list ascii) :
  length (numberPrefix l) = length l -> numberPrefix l = l.
Proof.
  induction l as [|c l IH]; [done|]. cbn.
  destruct (isNumberByte c); cbn; [|done]. intros [= Hl]. by rewrite IH.
Qed.

(** What the inner loop accumulates from the bytes [b[i : i+n]] and where it
    stops. *)
Lemma scanBuf_prefix (b : list ascii) (n i : nat) (s s' : numberScan)
    (stop : option nat) :
  (0 < n -> i + n <= length b) ->
  scanBuf b n i s = Ret (s', stop) ->
  let window := take n (drop i b) in
  str s' = str s ++ numberPrefix window /\
  match stop with
  | Some j => j = i + length (numberPrefix window) /\ j < i + n
  | None => numberPrefix window = window
  end.
Proof.
  revert i s. induction n as [|n IH]; intros i s Hlen; cbn.
  - intros [= <- <-]. by rewrite app_nil_r.
  - destruct (lookup_lt_is_Some_2 b i) as [c Hc]; [lia|]. rewrite Hc.
    rewrite (drop_S _ _ _ Hc). cbn [take numberPrefix]. unfold isNumberByte.
    assert (forall s1, str s1 = str s ++ [c] ->
              scanBuf b n (S i) s1 = Ret (s', stop) ->
              str s' = str s ++ c :: numberPrefix (take n (drop (S i) b)) /\
              match stop with
              | Some j =>
                  j = i + length (c :: numberPrefix (take n (drop (S i) b))) /\
                  j < i + S n
              | None =>
                  c :: numberPrefix (take n (drop (S i) b)) =
                  c :: take n (drop (S i) b)
              end) as Hstep.
    { intros s1 Hs1 Hscan. apply IH in Hscan as [Hstr Hstop]; [|lia].
      rewrite Hstr, Hs1, <- app_assoc. split; [done|].
      destruct stop as [j|]; cbn; [lia|by rewrite Hstop]. }
    destruct (Ascii.eqb c "-"); cbn; [by apply Hstep|].
    destruct (isSignOrDigit c); cbn; [by apply Hstep|].
    destruct (isFloatMark c); cbn; [by apply Hstep|].
    intros [= <- <-]. rewrite app_nil_r. split; [done|]. lia.
Qed.

Lemma numberPrefix_stop (l : list ascii) :
  numberPrefix l <> l ->
  exists c rest,
    drop (length (numberPrefix l)) l = c :: rest /\ isNumberByte c = false.
Proof.
  induction l as [|c l IH]; [done|]. cbn.
  destruct (isNumberByte c) eqn:Hc; cbn; [|by eauto].
  intros Hl. apply IH. intros Heq. apply Hl. by rewrite Heq.
Qed.

Lemma pendingInput_setError (e : error) (it : Iterator) :
  pendingInput (setError e it) = pendingInput it.
Proof. done. Qed.

(** What the outer loop accumulates and how it leaves the iterator. *)
Lemma numberLoop_input (fuel : nat) (it it' : Iterator) (s s' : numberScan) :
  tail it <= length (buf it) ->
  numberLoop fuel it s = Ret (s', it') ->
  let input := pendingInput it in
  str s' = str s ++ numberPrefix input /\
  tail it' <= length (buf it') /\
  (numberPrefix input <> input ->
   pendingInput it' = drop (length (numberPrefix input)) input /\
   Error it' = Error it) /\
  (numberPrefix input = input -> Error it' = Some (endOfInput it)).
Proof.
  revert it s. induction fuel as [|fuel IH]; intros it s Hlen; [done|].
  cbn [numberLoop].
  destruct (scanBuf (buf it) (tail it - head it) (head it) s)
    as [[s1 stop]| |] eqn:Hscan; [|done..].
  apply scanBuf_prefix in Hscan; [|lia]. cbn zeta in Hscan.
  destruct Hscan as [Hstr Hstop]. cbn.
  set (window := take (tail it - head it) (drop (head it) (buf it))) in *.
  set (rest := concat match reader it with
                      | Some r => chunks r
                      | None => []
                      end).
  assert (pendingInput it = window ++ rest) as Hinput by done.
  destruct stop as [j|].
  - destruct Hstop as [-> Hlt]. intros [= <- <-]. cbn zeta. rewrite Hinput.
    assert (length window = tail it - head it) as Hwin.
    { unfold window. rewrite length_take, length_drop. lia. }
    assert (numberPrefix window <> window) as Hne.
    { intros Heq. rewrite Heq in Hlt. lia. }
    rewrite (numberPrefix_app_stop _ _ Hne).
    split; [done|]. split; [done|]. split.
    + intros _. split; [|done]. unfold pendingInput. cbn. fold rest.
      pose proof (numberPrefix_length window).
      rewrite drop_app_le by lia. f_equal. unfold window.
      rewrite skipn_firstn_comm, drop_drop. f_equal. lia.
    + intros Heq. exfalso.
      assert (length (numberPrefix window) = length (window ++ rest)) as Hl
        by by rewrite Heq.
      rewrite length_app in Hl. lia.
  - unfold loadMore, endOfInput in *.
    destruct (reader it) as [[[|c cs] e]|] eqn:Hreader; cbn in *.
    + intros [= <- <-]. cbn zeta. rewrite Hinput. subst rest.
      rewrite app_nil_r, Hstop. split; [by rewrite Hstr, Hstop|].
      by repeat split.
    + intros Hloop. apply IH in Hloop as (Hstr' & Htail & Hterm & Hend); [|done].
      cbn zeta in *.
      assert (pendingInput (mkIterator (Some (mkReader cs e)) c 0 (length c)
                                       (Error it)) = rest) as Hnext.
      { unfold pendingInput. cbn. by rewrite Nat.sub_0_r, firstn_all. }
      rewrite Hnext in *. rewrite Hinput, (numberPrefix_app_all _ _ Hstop).
      split; [by rewrite Hstr', Hstr, Hstop, <- app_assoc|].
      split; [done|]. split.
      * intros Hne. rewrite length_app, <- drop_drop, drop_app_length.
        apply Hterm. intros Heq. apply Hne. by f_equal.
      * intros Heq. apply Hend. by apply app_inv_head in Heq.
    + intros [= <- <-]. cbn zeta. rewrite Hinput. subst rest.
      rewrite app_nil_r, Hstop. split; [by rewrite Hstr, Hstop|].
      by repeat split.
Qed.

Lemma scanNumber_input (it : Iterator) :
  tail it <= length (buf it) ->
  exists s it',
    scanNumber it = Ret (s, it') /\
    str s = numberPrefix (pendingInput it) /\
    tail it' <= length (buf it') /\
    (numberPrefix (pendingInput it) <> pendingInput it ->
     pendingInput it' =
       drop (length (numberPrefix (pendingInput it))) (pendingInput it) /\
     Error it' = Error it) /\
    (numberPrefix (pendingInput it) = pendingInput it ->
     Error it' = Some (endOfInput it)).
Proof.
  intros Hlen.
  destruct (numberLoop_returns (S (refills it)) it (mkScan [] false false))
    as (s & it' & Hscan); [lia|done|].
  exists s, it'. split; [done|].
  by apply numberLoop_input in Hscan.
Qed.

(** X1. The literal [readNumber] parses is the longest prefix of number bytes
    of the input not yet consumed, however that input is cut into the buffer
    and the refills: no byte is dropped or read twice where one buffer ends
    and the next begins. *)
Theorem readNumber_literal_across_refills `{FloatParser} (it : Iterator) :
  tail it <= length (buf it) ->
  exists s it',
    scanNumber it = Ret (s, it') /\
    str s = numberPrefix (pendingInput it) /\
    (pendingError it' = false ->
     readNumber it =
     Ret (classified (string_of_list_ascii (numberPrefix (pendingInput it))) it')).
Proof.
  intros Hlen. destruct (scanNumber_input it Hlen) as (s & it' & Hscan & Hstr & _).
  exists s, it'. split; [done|]. split; [done|].
  intros Hpending. rewrite <- Hstr. by apply readNumber_after_scan.
Qed.

Lemma readNumber_literal_across_refills_witness :
  tail inPieces <= length (buf inPieces) /\
  pendingInput inPieces = list_ascii_of_string "12345,6" /\
  exists it',
    @readNumber Scanner.floats inPieces = Ret (MakeAny (uint64_ 12345), it').
Proof.
  split; [vm_compute; lia|]. split; [reflexivity|].
  destruct (@readNumber_literal_across_refills Scanner.floats inPieces)
    as (s & it' & Hscan & Hstr & Hread); [vm_compute; lia|].
  exists it'. vm_compute in Hscan. injection Hscan as <- <-.
  apply Hread. reflexivity.
Defined.

(** X2. When the pending input goes on after the number, [readNumber] leaves
    the iterator exactly behind the literal: the first byte that is no number
    byte is the next one to be read, and the error slot is as it was unless
    the parser rejected the literal. *)
Theorem readNumber_leaves_terminator `{FloatParser} (it : Iterator) :
  tail it <= length (buf it) ->
  numberPrefix (pendingInput it) <> pendingInput it ->
  exists r it' c rest,
    readNumber it = Ret (r, it') /\
    pendingInput it' =
      drop (length (numberPrefix (pendingInput it))) (pendingInput it) /\
    pendingInput it' = c :: rest /\ isNumberByte c = false /\
    (r <> None -> Error it' = Error it).
Proof.
  intros Hlen Hterm.
  destruct (scanNumber_input it Hlen) as (s & it' & Hscan & Hstr & _ & Hrest & _).
  destruct (Hrest Hterm) as [Hpending Herr].
  destruct (numberPrefix_stop _ Hterm) as (c & rest & Hdrop & Hc).
  destruct (pendingError it') eqn:Hpe.
  - exists None, it', c, rest. rewrite (readNumber_pending _ _ _ Hscan Hpe).
    rewrite Hpending. by repeat split.
  - rewrite (readNumber_after_scan _ _ _ Hscan Hpe). unfold classified.
    destruct (parseAs _ _) as [v [err|]].
    + exists None, (setError err it'), c, rest.
      rewrite pendingInput_setError, Hpending. by repeat split.
    + exists (MakeAny v), it', c, rest. rewrite Hpending. by repeat split.
Qed.

Lemma readNumber_leaves_terminator_witness :
  tail inPieces <= length (buf inPieces) /\
  numberPrefix (pendingInput inPieces) <> pendingInput inPieces /\
  exists r it',
    @readNumber Scanner.floats inPieces = Ret (r, it') /\
    pendingInput it' = list_ascii_of_string ",6".
Proof.
  assert (numberPrefix (pendingInput inPieces) <> pendingInput inPieces) as Hterm
    by (vm_compute; discriminate).
  split; [vm_compute; lia|]. split; [exact Hterm|].
  destruct (@readNumber_leaves_terminator Scanner.floats inPieces)
    as (r & it' & c & rest & Hread & Hdrop & _); [vm_compute; lia|exact Hterm|].
  exists r, it'. split; [exact Hread|]. rewrite Hdrop. reflexivity.
Defined.

(** X3. When the whole pending input consists of number bytes, the scan runs
    into the end of the input and the iterator's error slot takes the
    reader's failure.  If that is the end-of-file error the literal is parsed
    all the same; with any other failure [readNumber] returns nil and leaves
    that failure in the slot. *)
Theorem readNumber_end_of_input `{FloatParser} (it : Iterator) :
  tail it <= length (buf it) ->
  numberPrefix (pendingInput it) = pendingInput it ->
  (endOfInput it = EOF ->
   exists it',
     Error it' = Some EOF /\
     readNumber it =
     Ret (classified (string_of_list_ascii (pendingInput it)) it')) /\
  (endOfInput it <> EOF ->
   exists it',
     Error it' = Some (endOfInput it) /\ readNumber it = Ret (None, it')).
Proof.
  intros Hlen Hall.
  destruct (scanNumber_input it Hlen) as (s & it' & Hscan & Hstr & _ & _ & Hend).
  specialize (Hend Hall). split; intros Heof; exists it'.
  - rewrite Heof in Hend. split; [done|]. rewrite <- Hall, <- Hstr.
    apply readNumber_after_scan; [done|]. unfold pendingError. by rewrite Hend.
  - split; [done|]. apply (readNumber_pending _ _ _ Hscan).
    unfold pendingError. rewrite Hend. by destruct (endOfInput it).
Qed.

Lemma readNumber_end_of_input_witness :
  (tail (ParseString "") <= length (buf (ParseString "")) /\
   numberPrefix (pendingInput (ParseString "")) = pendingInput (ParseString "") /\
   endOfInput (ParseString "") = EOF /\
   exists it',
     @readNumber Scanner.floats (ParseString "") =
     Ret (None, setError (NumError "ParseUint" "" ErrSyntax) it')) /\
  (tail brokenReader <= length (buf brokenReader) /\
   numberPrefix (pendingInput brokenReader) = pendingInput brokenReader /\
   endOfInput brokenReader <> EOF /\
   exists it',
     Error it' = Some (errorString "connection reset") /\
     @readNumber Scanner.floats brokenReader = Ret (None, it')).
Proof.
  split.
  - split; [vm_compute; lia|]. split; [reflexivity|]. split; [reflexivity|].
    destruct (proj1 (@readNumber_end_of_input Scanner.floats (ParseString "")
                       ltac:(vm_compute; lia) eq_refl) eq_refl)
      as (it' & _ & Hread).
    exists it'. exact Hread.
  - split; [vm_compute; lia|]. split; [reflexivity|]. split; [discriminate|].
    apply (proj2 (@readNumber_end_of_input Scanner.floats brokenReader
                    ltac:(vm_compute; lia) eq_refl)).
    discriminate.
Defined.

(** ** Decimal literals *)

Lemma isDigit_digitOf (c : ascii) :
  strconv.isDigit c = true -> (0 <= strconv.digitOf c <= 9)%Z.
Proof.
  unfold strconv.isDigit, strconv.digitOf.
  rewrite andb_true_iff, !Nat.leb_le. lia.
Qed.

Lemma digits_grow (ds : list ascii) (n : Z) :
  forallb strconv.isDigit ds = true -> (0 <= n)%Z ->
  (n <= fold_left (fun n c => n * 10 + strconv.digitOf c) ds n)%Z.
Proof.
  revert n. induction ds as [|c ds IH]; intros n; cbn; [lia|].
  rewrite andb_true_iff. intros [Hc Hds] Hn.
  apply isDigit_digitOf in Hc. etrans; [|apply IH]; [lia|done|lia].
Qed.

(** The digit loop of [ParseUint] computes the decimal value, or reports that
    it is out of range. *)
Lemma parseDigits_value (ds : list ascii) (n : Z) :
  forallb strconv.isDigit ds = true -> (0 <= n <= strconv.maxUint64)%Z ->
  let v := fold_left (fun n c => n * 10 + strconv.digitOf c)%Z ds n in
  strconv.parseDigits ds n =
  if decide (v <= strconv.maxUint64)%Z then (v, None)
  else (strconv.maxUint64, Some ErrRange).
Proof.
  revert n. induction ds as [|c ds IH]; intros n; cbn.
  - intros _ Hn. by rewrite decide_True by lia.
  - rewrite andb_true_iff. intros [Hc Hds] Hn. rewrite Hc. cbn.
    pose proof (isDigit_digitOf _ Hc) as Hd.
    pose proof (digits_grow ds (n * 10 + strconv.digitOf c) Hds ltac:(lia))
      as Hgrow.
    assert (strconv.maxUint64 = 18446744073709551615)%Z as Hmax by done.
    assert (strconv.maxUint64 / 10 + 1 = 1844674407370955162)%Z as Hcut by done.
    rewrite Hcut.
    destruct (Z.leb_spec 1844674407370955162 n).
    { rewrite decide_False by lia. done. }
    destruct (Z.ltb_spec strconv.maxUint64 (n * 10 + strconv.digitOf c)).
    { rewrite decide_False by lia. done. }
    apply IH; [done|lia].
Qed.

Lemma digits_lack (x : ascii) (ds : list ascii) :
  strconv.isDigit x = false -> forallb strconv.isDigit ds = true ->
  existsb (Ascii.eqb x) ds = false.
Proof.
  intros Hx. induction ds as [|c ds IH]; [done|]. cbn.
  rewrite andb_true_iff. intros [Hc Hds]. rewrite IH by done.
  destruct (Ascii.eqb_spec x c) as [->|]; [congruence|done].
Qed.

Lemma numberPrefix_digits (ds : list ascii) (c : ascii) (rest : list ascii) :
  forallb strconv.isDigit ds = true -> isNumberByte c = false ->
  numberPrefix (ds ++ c :: rest) = ds.
Proof.
  intros Hds Hc. induction ds as [|d ds IH]; cbn; [by rewrite Hc|].
  cbn in Hds. apply andb_true_iff in Hds as [Hd Hds].
  unfold isNumberByte at 1, isSignOrDigit. rewrite Hd, !orb_true_r. cbn.
  by rewrite IH.
Qed.

Lemma ParseUint_digits (ds : list ascii) :
  forallb strconv.isDigit ds = true -> ds <> [] ->
  strconv.ParseUint (string_of_list_ascii ds) =
  if decide (decimalValue ds <= strconv.maxUint64)%Z
  then (decimalValue ds, None)
  else (strconv.maxUint64,
        Some (NumError "ParseUint" (string_of_list_ascii ds) ErrRange)).
Proof.
  intros Hds Hne. unfold strconv.ParseUint, strconv.parseUintAs.
  rewrite list_ascii_of_string_of_list_ascii.
  rewrite (parseDigits_value ds 0 Hds) by done. fold (decimalValue ds).
  destruct ds as [|d ds]; [done|]. cbn [string_of_list_ascii].
  by case_decide.
Qed.

Lemma ParseInt_minus_digits (ds : list ascii) :
  forallb strconv.isDigit ds = true -> ds <> [] ->
  let literal := string_of_list_ascii ("-"%char :: ds) in
  strconv.ParseInt literal =
  if decide (decimalValue ds <= 2 ^ 63)%Z
  then (- decimalValue ds, None)%Z
  else (- 2 ^ 63, Some (NumError "ParseInt" literal ErrRange))%Z.
Proof.
  intros Hds Hne. cbn zeta. cbn [string_of_list_ascii].
  unfold strconv.ParseInt. cbn [Ascii.eqb Bool.eqb orb negb andb].
  replace (Ascii.eqb "-" "+") with false by done.
  replace (Ascii.eqb "-" "-") with true by done. cbn [orb negb andb].
  unfold strconv.parseUintAs. rewrite list_ascii_of_string_of_list_ascii.
  rewrite (parseDigits_value ds 0 Hds) by done. fold (decimalValue ds).
  assert (strconv.maxUint64 = 18446744073709551615)%Z as Hmax by done.
  assert (2 ^ 63 = 9223372036854775808)%Z as Hcut by done.
  destruct ds as [|d ds]; [done|]. cbn [string_of_list_ascii].
  rewrite Hcut.
  destruct (decide (decimalValue (d :: ds) <= strconv.maxUint64)%Z).
  - destruct (Z.ltb_spec 9223372036854775808 (decimalValue (d :: ds)));
      [rewrite decide_False by lia|rewrite decide_True by lia]; done.
  - rewrite decide_False by lia. rewrite Hmax. done.
Qed.

Lemma contains_list (x : ascii) (l : list ascii) :
  contains x (string_of_list_ascii l) = existsb (Ascii.eqb x) l.
Proof. unfold contains. by rewrite list_ascii_of_string_of_list_ascii. Qed.

(** X4. An unsigned decimal literal followed by a byte that ends it is read
    as its value when that fits 64 bits, the terminator staying in the
    input; a literal beyond the range gives nil and the range error of
    [ParseUint] in the error slot. *)
Theorem readNumber_unsigned_literal `{FloatParser} (it : Iterator)
    (ds : list ascii) (c : ascii) (rest : list ascii) :
  tail it <= length (buf it) ->
  pendingError it = false ->
  forallb strconv.isDigit ds = true -> ds <> [] ->
  isNumberByte c = false ->
  pendingInput it = ds ++ c :: rest ->
  exists it',
    pendingInput it' = c :: rest /\
    readNumber it =
    Ret (if decide (decimalValue ds <= strconv.maxUint64)%Z
         then (MakeAny (uint64_ (decimalValue ds)), it')
         else (None,
               setError (NumError "ParseUint" (string_of_list_ascii ds) ErrRange)
                        it')).
Proof.
  intros Hlen Hpending Hds Hne Hc Hinput.
  destruct (scanNumber_input it Hlen) as (s & it' & Hscan & Hstr & _ & Hterm & _).
  rewrite Hinput, (numberPrefix_digits _ _ _ Hds Hc) in *.
  destruct Hterm as [Hrest Herr].
  { intros Heq. apply (f_equal length) in Heq. rewrite length_app in Heq.
    cbn in Heq. lia. }
  rewrite drop_app_length in Hrest. exists it'. split; [done|].
  rewrite (readNumber_after_scan _ _ _ Hscan), Hstr.
  2: { unfold pendingError in *. by rewrite Herr. }
  unfold classified, lexicalClass. rewrite !contains_list.
  rewrite !(digits_lack _ ds) by done. cbn [orb parseAs].
  rewrite (ParseUint_digits ds Hds Hne). by case_decide.
Qed.

Lemma readNumber_unsigned_literal_witness :
  let it := ParseString "18446744073709551615," in
  let big := ParseString "18446744073709551616," in
  (tail it <= length (buf it) /\
   exists it',
     @readNumber Scanner.floats it =
     Ret (MakeAny (uint64_ 18446744073709551615), it')) /\
  (tail big <= length (buf big) /\
   exists it',
     @readNumber Scanner.floats big =
     Ret (None,
          setError (NumError "ParseUint" "18446744073709551616" ErrRange) it')).
Proof.
  cbn zeta. split; (split; [vm_compute; lia|]).
  - destruct (@readNumber_unsigned_literal Scanner.floats
                (ParseString "18446744073709551615,")
                (list_ascii_of_string "18446744073709551615") ","%char [])
      as (it' & _ & Hread);
      [vm_compute; lia|reflexivity|reflexivity|discriminate|reflexivity
      |reflexivity|].
    exists it'. exact Hread.
  - destruct (@readNumber_unsigned_literal Scanner.floats
                (ParseString "18446744073709551616,")
                (list_ascii_of_string "18446744073709551616") ","%char [])
      as (it' & _ & Hread);
      [vm_compute; lia|reflexivity|reflexivity|discriminate|reflexivity
      |reflexivity|].
    exists it'. exact Hread.
Defined.

(** X5. A minus sign followed by decimal digits and a byte that ends the
    literal is read as the negated value when that is at least -2^63; below
    that the result is nil and the range error of [ParseInt] is in the error
    slot. *)
Theorem readNumber_negative_literal `{FloatParser} (it : Iterator)
    (ds : list ascii) (c : ascii) (rest : list ascii) :
  tail it <= length (buf it) ->
  pendingError it = false ->
  forallb strconv.isDigit ds = true -> ds <> [] ->
  isNumberByte c = false ->
  pendingInput it = "-"%char :: ds ++ c :: rest ->
  exists it',
    pendingInput it' = c :: rest /\
    readNumber it =
    Ret (if decide (decimalValue ds <= 2 ^ 63)%Z
         then (MakeAny (int64_ (- decimalValue ds)), it')
         else (None,
               setError (NumError "ParseInt"
                           (string_of_list_ascii ("-"%char :: ds)) ErrRange)
                        it')).
Proof.
  intros Hlen Hpending Hds Hne Hc Hinput.
  destruct (scanNumber_input it Hlen) as (s & it' & Hscan & Hstr & _ & Hterm & _).
  assert (numberPrefix ("-"%char :: ds ++ c :: rest) = "-"%char :: ds) as Hprefix.
  { cbn. by rewrite (numberPrefix_digits _ _ _ Hds Hc). }
  rewrite Hinput, Hprefix in *.
  destruct Hterm as [Hrest Herr].
  { intros Heq. apply (f_equal length) in Heq. cbn in Heq.
    rewrite length_app in Heq. cbn in Heq. lia. }
  change ("-"%char :: ds ++ c :: rest) with (("-"%char :: ds) ++ c :: rest)
    in Hrest.
  rewrite drop_app_length in Hrest. exists it'. split; [done|].
  rewrite (readNumber_after_scan _ _ _ Hscan), Hstr.
  2: { unfold pendingError in *. by rewrite Herr. }
  unfold classified, lexicalClass. rewrite !contains_list. cbn [existsb].
  rewrite !(digits_lack _ ds) by done.
  replace (Ascii.eqb "." "-") with false by done.
  replace (Ascii.eqb "e" "-") with false by done.
  replace (Ascii.eqb "E" "-") with false by done.
  replace (Ascii.eqb "-" "-") with true by done.
  cbn [orb parseAs].
  rewrite (ParseInt_minus_digits ds Hds Hne). by case_decide.
Qed.

Lemma readNumber_negative_literal_witness :
  let it := ParseString "-9223372036854775808]" in
  tail it <= length (buf it) /\
  exists it',
    pendingInput it' = ["]"%char] /\
    @readNumber Scanner.floats it =
    Ret (MakeAny (int64_ (-9223372036854775808)), it').
Proof.
  cbn zeta. split; [vm_compute; lia|].
  apply (@readNumber_negative_literal Scanner.floats
           (ParseString "-9223372036854775808]")
           (list_ascii_of_string "9223372036854775808") "]"%char []);
    [vm_compute; lia|reflexivity|reflexivity|discriminate|reflexivity
    |reflexivity].
Defined.

(** X6. A plus sign is accumulated like a digit, but it does not make the
    literal a signed one: digits behind a leading plus sign are handed to
    [ParseUint], which rejects the sign, so the result is nil with a syntax
    error in the error slot, the terminator staying in the input. *)
Theorem readNumber_rejects_leading_plus `{FloatParser} (it : Iterator)
    (ds : list ascii) (c : ascii) (rest : list ascii) :
  tail it <= length (buf it) ->
  pendingError it = false ->
  forallb strconv.isDigit ds = true ->
  isNumberByte c = false ->
  pendingInput it = "+"%char :: ds ++ c :: rest ->
  exists it',
    pendingInput it' = c :: rest /\
    readNumber it =
    Ret (None,
         setError (NumError "ParseUint" (string_of_list_ascii ("+"%char :: ds))
                            ErrSyntax) it').
Proof.
  intros Hlen Hpending Hds Hc Hinput.
  destruct (scanNumber_input it Hlen) as (s & it' & Hscan & Hstr & _ & Hterm & _).
  assert (numberPrefix ("+"%char :: ds ++ c :: rest) = "+"%char :: ds) as Hprefix.
  { cbn. by rewrite (numberPrefix_digits _ _ _ Hds Hc). }
  rewrite Hinput, Hprefix in *.
  destruct Hterm as [Hrest Herr].
  { intros Heq. apply (f_equal length) in Heq. cbn in Heq.
    rewrite length_app in Heq. cbn in Heq. lia. }
  change ("+"%char :: ds ++ c :: rest) with (("+"%char :: ds) ++ c :: rest)
    in Hrest.
  rewrite drop_app_length in Hrest. exists it'. split; [done|].
  rewrite (readNumber_after_scan _ _ _ Hscan), Hstr.
  2: { unfold pendingError in *. by rewrite Herr. }
  unfold classified, lexicalClass. rewrite !contains_list. cbn [existsb].
  rewrite !(digits_lack _ ds) by done.
  replace (Ascii.eqb "." "+") with false by done.
  replace (Ascii.eqb "e" "+") with false by done.
  replace (Ascii.eqb "E" "+") with false by done.
  replace (Ascii.eqb "-" "+") with false by done.
  cbn [orb parseAs]. done.
Qed.

Lemma readNumber_rejects_leading_plus_witness :
  let it := ParseString "+5," in
  tail it <= length (buf it) /\
  exists it',
    pendingInput it' = [","%char] /\
    @readNumber Scanner.floats it =
    Ret (None, setError (NumError "ParseUint" "+5" ErrSyntax) it').
Proof.
  cbn zeta. split; [vm_compute; lia|].
  apply (@readNumber_rejects_leading_plus Scanner.floats (ParseString "+5,")
           (list_ascii_of_string "5") ","%char []);
    [vm_compute; lia|reflexivity|reflexivity|reflexivity|reflexivity].
Defined.

(** ** Sequences of insertions into the cache *)

Lemma assignAll_absent {K V : Type} `{Countable K} (m : gmap K V)
    (entries : list (K * V)) (k : K) :
  k ∉ entries.*1 -> assignAll m entries !! k = m !! k.
Proof.
  revert m. induction entries as [|[k' v'] entries IH]; intros m; [done|].
  cbn. rewrite not_elem_of_cons. intros [Hne Hk].
  unfold assignAll in *. cbn. rewrite IH by done. by rewrite lookup_insert_ne.
Qed.

Lemma assignAll_last {K V : Type} `{Countable K} (m : gmap K V)
    (before after : list (K * V)) (k : K) (v : V) :
  k ∉ after.*1 -> assignAll m (before ++ (k, v) :: after) !! k = Some v.
Proof.
  intros Hk. unfold assignAll. rewrite foldl_app. cbn.
  fold (assignAll (<[k := v]> (foldl (fun m entry => <[entry.1 := entry.2]> m)
                                     m before)) after).
  rewrite assignAll_absent by done. apply lookup_insert_eq.
Qed.

(** An insertion that nothing interferes with, written out. *)
Lemma addDecoderToCache_alone (c : Cache) (cacheKey : rtype) (decoder : Decoder)
    (cache : gmap rtype Decoder) :
  objects c !! DECODERS c = Some cache ->
  addDecoderToCache [] cacheKey decoder c =
  Ret (mkCache (fresh (dom (objects c)))
               (<[fresh (dom (objects c)) := <[cacheKey := decoder]> cache]>
                  (objects c))).
Proof.
  intros Hcache. unfold addDecoderToCache. rewrite Hcache, copyOf_eq.
  unfold newObject, CompareAndSwapPointer. cbn. by rewrite decide_True.
Qed.

Lemma fresh_object (c : Cache) (l : loc) (m : gmap rtype Decoder) :
  objects c !! l = Some m -> l <> fresh (dom (objects c)).
Proof.
  intros Hl ->. by apply (is_fresh (dom (objects c))), elem_of_dom.
Qed.

(** X7. After any sequence of insertions into a cache, a lookup returns the
    decoder of the last insertion made for the type, or what the cache held
    before if none was made for it; the lookup never panics, and no map
    object that existed before has changed. *)
Theorem cache_holds_last_insertion (entries : list (rtype * Decoder))
    (c : Cache) (cache : gmap rtype Decoder) :
  objects c !! DECODERS c = Some cache ->
  exists c',
    insertAll entries c = Ret c' /\
    (forall k, getDecoderFromCache k c' = Ret (assignAll cache entries !! k)) /\
    (forall before k d after,
       entries = before ++ (k, d) :: after -> k ∉ after.*1 ->
       getDecoderFromCache k c' = Ret (Some d)) /\
    (forall k, k ∉ entries.*1 ->
       getDecoderFromCache k c' = getDecoderFromCache k c) /\
    (forall l m, objects c !! l = Some m -> objects c' !! l = Some m).
Proof.
  intros Hcache.
  assert (exists c',
            insertAll entries c = Ret c' /\
            objects c' !! DECODERS c' = Some (assignAll cache entries) /\
            (forall l m, objects c !! l = Some m -> objects c' !! l = Some m))
    as (c' & Hall & Hsnap & Hold).
  { revert c cache Hcache.
    induction entries as [|[k d] entries IH]; intros c cache Hcache.
    - exists c. by repeat split.
    - cbn [insertAll fst snd].
      rewrite (addDecoderToCache_alone _ _ _ _ Hcache). cbn.
      edestruct IH as (c' & Hall & Hsnap & Hold); last first.
      { exists c'. split; [exact Hall|]. split; [exact Hsnap|].
        intros l m Hl. apply Hold. cbn. rewrite lookup_insert_ne; [done|].
        intros <-. exact (fresh_object c _ m Hl eq_refl). }
      cbn. apply lookup_insert_eq. }
  exists c'. split; [done|].
  assert (forall k, getDecoderFromCache k c' = Ret (assignAll cache entries !! k))
    as Hget.
  { intros k. unfold getDecoderFromCache. by rewrite Hsnap. }
  repeat split; try done.
  - intros before k d after -> Hk. by rewrite Hget, assignAll_last.
  - intros k Hk. rewrite Hget, assignAll_absent by done.
    unfold getDecoderFromCache. by rewrite Hcache.
Qed.

Lemma cache_holds_last_insertion_witness :
  objects init_cache !! DECODERS init_cache = Some ∅ /\
  exists c',
    insertAll [(t_int, stringDecoder); (t_string, stringDecoder);
               (t_int, intDecoder)] init_cache = Ret c' /\
    getDecoderFromCache t_int c' = Ret (Some intDecoder) /\
    getDecoderFromCache t_chan_int c' = getDecoderFromCache t_chan_int init_cache.
Proof.
  split; [reflexivity|].
  destruct (cache_holds_last_insertion
              [(t_int, stringDecoder); (t_string, stringDecoder);
               (t_int, intDecoder)] init_cache ∅ eq_refl)
    as (c' & Hall & _ & Hlast & Habsent & _).
  exists c'. split; [exact Hall|]. split.
  - apply (Hlast [(t_int, stringDecoder); (t_string, stringDecoder)]
                 t_int intDecoder []); [reflexivity|].
    cbn. apply not_elem_of_nil.
  - apply Habsent. cbn. intros Hin. apply (bool_decide_pack _) in Hin.
    vm_compute in Hin. exact Hin.
Defined.

(** X8. When every turn of the retry loop loses the race against another
    goroutine that inserts an entry of its own, [addDecoderToCache] takes one
    more turn per rival, each from the snapshot the rival published, and the
    snapshot it finally swaps in holds the entries of all rivals together with
    its own: no insertion is lost. *)
Theorem lost_races_lose_no_entry (rivals : list (rtype * Decoder))
    (cacheKey : rtype) (decoder : Decoder) (c : Cache)
    (cache : gmap rtype Decoder) :
  objects c !! DECODERS c = Some cache ->
  exists c',
    addDecoderToCache (map (fun entry => rivalInsert entry.1 entry.2) rivals)
                      cacheKey decoder c = Ret c' /\
    objects c' !! DECODERS c' =
      Some (<[cacheKey := decoder]> (assignAll cache rivals)) /\
    getDecoderFromCache cacheKey c' = Ret (Some decoder) /\
    (forall l m, objects c !! l = Some m -> objects c' !! l = Some m).
Proof.
  intros Hcache.
  assert (exists c',
            addDecoderToCache
              (map (fun entry => rivalInsert entry.1 entry.2) rivals)
              cacheKey decoder c = Ret c' /\
            objects c' !! DECODERS c' =
              Some (<[cacheKey := decoder]> (assignAll cache rivals)) /\
            (forall l m, objects c !! l = Some m -> objects c' !! l = Some m))
    as (c' & Hadd & Hsnap & Hold).
  { revert c cache Hcache.
    induction rivals as [|[k d] rivals IH]; intros c cache Hcache.
    - cbn [map]. rewrite (addDecoderToCache_alone _ _ _ _ Hcache).
      eexists. split; [done|]. cbn. split; [apply lookup_insert_eq|].
      intros l m Hl. rewrite lookup_insert_ne; [done|].
      intros <-. exact (fresh_object c _ m Hl eq_refl).
    - cbn [map addDecoderToCache fst snd]. rewrite Hcache, copyOf_eq.
      unfold newObject. cbn [fst snd].
      set (mine := fresh (dom (objects c))).
      set (c1 := mkCache (DECODERS c)
                         (<[mine := <[cacheKey := decoder]> cache]> (objects c))).
      assert (mine <> DECODERS c) as Hmine.
      { intros Heq. exact (fresh_object c _ cache Hcache (eq_sym Heq)). }
      assert (objects c1 !! DECODERS c1 = Some cache) as Hc1.
      { cbn. by rewrite lookup_insert_ne. }
      unfold rivalInsert. rewrite (addDecoderToCache_alone _ _ _ _ Hc1).
      set (theirs := fresh (dom (objects c1))).
      assert (theirs <> DECODERS c) as Htheirs.
      { intros Heq. exact (fresh_object c1 _ cache Hc1 (eq_sym Heq)). }
      unfold CompareAndSwapPointer. cbn [DECODERS].
      rewrite decide_False by done.
      edestruct IH as (c' & Hadd & Hsnap & Hold); last first.
      { exists c'. split; [exact Hadd|]. split; [exact Hsnap|].
        intros l m Hl. apply Hold. cbn.
        assert (objects c1 !! l = Some m) as Hl1.
        { cbn. rewrite lookup_insert_ne; [done|].
          intros <-. exact (fresh_object c _ m Hl eq_refl). }
        rewrite lookup_insert_ne; [done|].
        intros <-. exact (fresh_object c1 _ m Hl1 eq_refl). }
      cbn. apply lookup_insert_eq. }
  exists c'. repeat split; try done.
  unfold getDecoderFromCache. by rewrite Hsnap, lookup_insert_eq.
Qed.

Lemma lost_races_lose_no_entry_witness :
  objects init_cache !! DECODERS init_cache = Some ∅ /\
  exists c',
    addDecoderToCache [rivalInsert t_string stringDecoder;
                       rivalInsert t_interface interfaceDecoder]
                      t_int intDecoder init_cache = Ret c' /\
    objects c' !! DECODERS c' =
      Some (<[t_int := intDecoder]>
              (<[t_interface := interfaceDecoder]>
                 (<[t_string := stringDecoder]> ∅))).
Proof.
  split; [reflexivity|].
  destruct (lost_races_lose_no_entry
              [(t_string, stringDecoder); (t_interface, interfaceDecoder)]
              t_int intDecoder init_cache ∅ eq_refl)
    as (c' & Hadd & Hsnap & _).
  exists c'. split; [exact Hadd|exact Hsnap].
Defined.

(** ** The registries *)

Lemma contains_key (typ field : string) :
  contains "/" (typ +:+ "/" +:+ field) = true.
Proof.
  unfold contains. induction typ as [|c typ IH]; [done|].
  change (String c typ +:+ "/" +:+ field)
    with (String c (typ +:+ "/" +:+ field)).
  cbn [list_ascii_of_string existsb]. rewrite IH. apply orb_true_r.
Qed.

Lemma field_key_inj (typ1 field1 typ2 field2 : string) :
  contains "/" field1 = false -> contains "/" field2 = false ->
  typ1 +:+ "/" +:+ field1 = typ2 +:+ "/" +:+ field2 ->
  typ1 = typ2 /\ field1 = field2.
Proof.
  intros Hf1 Hf2. revert typ2.
  induction typ1 as [|c1 typ1 IH]; intros [|c2 typ2]; cbn; intros Heq.
  - injection Heq as Ht. by subst.
  - injection Heq as Hc Ht. change ("" +:+ field1) with field1 in Ht.
    rewrite Ht, contains_key in Hf1. done.
  - injection Heq as Hc Ht. change ("" +:+ field2) with field2 in Ht.
    rewrite <- Ht, contains_key in Hf2. done.
  - injection Heq as Hc Ht. destruct (IH _ Ht) as [-> ->]. by subst.
Qed.

(** X9. Decoders registered for two different fields do not replace one
    another, provided the field names contain no slash (no Go identifier
    does): after both registrations each key holds its own decoder.  The
    type decoders and the extensions are not touched. *)
Theorem field_registrations_are_kept_apart (reg : Registry)
    (typ1 field1 typ2 field2 : string) (fun1 fun2 : DecoderFunc) :
  contains "/" field1 = false -> contains "/" field2 = false ->
  (typ1, field1) <> (typ2, field2) ->
  let reg' :=
    RegisterFieldDecoder typ2 field2 fun2
      (RegisterFieldDecoder typ1 field1 fun1 reg) in
  fieldDecoders reg' !! (typ1 +:+ "/" +:+ field1) = Some (funcDecoder fun1) /\
  fieldDecoders reg' !! (typ2 +:+ "/" +:+ field2) = Some (funcDecoder fun2) /\
  typeDecoders reg' = typeDecoders reg /\
  extensions reg' = extensions reg.
Proof.
  intros Hf1 Hf2 Hne. cbn. repeat split.
  - rewrite lookup_insert_ne, lookup_insert_eq; [done|].
    intros Heq. symmetry in Heq.
    destruct (field_key_inj _ _ _ _ Hf1 Hf2 Heq) as [-> ->]. done.
  - apply lookup_insert_eq.
Qed.

Lemma field_registrations_are_kept_apart_witness :
  let reg' :=
    RegisterFieldDecoder "jsoniter.TestObject" "field2" storeNil
      (RegisterFieldDecoder "jsoniter.TestObject" "field1"
                            (fun _ st => st) init_registry) in
  fieldDecoders reg' !! "jsoniter.TestObject/field1" =
    Some (funcDecoder (fun _ st => st)) /\
  fieldDecoders reg' !! "jsoniter.TestObject/field2" =
    Some (funcDecoder storeNil).
Proof.
  destruct (field_registrations_are_kept_apart init_registry
              "jsoniter.TestObject" "field1" "jsoniter.TestObject" "field2"
              (fun _ st => st) storeNil eq_refl eq_refl ltac:(discriminate))
    as (H1 & H2 & _).
  split; [exact H1|exact H2].
Defined.

(** Compilation of a type that reaches no struct looks at the type decoders
    only. *)
Lemma decoderOfPtr_same_overrides `{NativeDecoders} (reg1 reg2 : Registry)
    (typ : rtype) :
  typeDecoders reg1 = typeDecoders reg2 -> structFree typ = true ->
  decoderOfPtr reg1 typ = decoderOfPtr reg2 typ.
Proof.
  intros Hreg. induction typ as [name k|name fields|name len elem IH|name elem IH
    |name key IHkey elem IH|name elem IH|name elem IH]; intros Hfree;
    rewrite (decoderOfPtr_unfold reg1), (decoderOfPtr_unfold reg2), Hreg;
    try done; cbn in Hfree.
  - unfold decoderOfMap. by rewrite IH.
  - unfold decoderOfOptional. by rewrite IH.
  - unfold decoderOfSlice. by rewrite IH.
Qed.

(** X10. [CleanDecoders] removes every type and field override and keeps the
    extensions.  Afterwards a type whose compilation reaches no struct
    compiles as it does before any registration; registering a field decoder
    or an extension never changes how such a type compiles. *)
Theorem CleanDecoders_forgets_overrides `{NativeDecoders} (reg : Registry)
    (typ : rtype) :
  typeDecoders (CleanDecoders reg) = ∅ /\
  fieldDecoders (CleanDecoders reg) = ∅ /\
  extensions (CleanDecoders reg) = extensions reg /\
  (structFree typ = true ->
   decoderOfPtr (CleanDecoders reg) typ = decoderOfPtr init_registry typ /\
   (forall name field fun_,
      decoderOfPtr (RegisterFieldDecoder name field fun_ reg) typ =
      decoderOfPtr reg typ) /\
   (forall extension,
      decoderOfPtr (RegisterExtension extension reg) typ =
      decoderOfPtr reg typ)).
Proof.
  repeat split; intros; by apply decoderOfPtr_same_overrides.
Qed.

Lemma CleanDecoders_forgets_overrides_witness :
  structFree (reflect.TSlice "[]int" t_int) = true /\
  @decoderOfPtr Scanner.decoders
    (RegisterTypeDecoder "int" storeNil init_registry)
    (reflect.TSlice "[]int" t_int) =
  inl (sliceDecoder (reflect.TSlice "[]int" t_int) t_int (funcDecoder storeNil)) /\
  @decoderOfPtr Scanner.decoders
    (CleanDecoders (RegisterTypeDecoder "int" storeNil init_registry))
    (reflect.TSlice "[]int" t_int) =
  inl (sliceDecoder (reflect.TSlice "[]int" t_int) t_int intDecoder).
Proof.
  split; [reflexivity|]. split; [reflexivity|].
  rewrite (proj1 (proj2 (proj2 (proj2
             (@CleanDecoders_forgets_overrides Scanner.decoders
                (RegisterTypeDecoder "int" storeNil init_registry)
                (reflect.TSlice "[]int" t_int)))) eq_refl)).
  reflexivity.
Defined.

(** ** Where compilation fails *)

Section CompileFailures.

Context `{NativeDecoders}.

Lemma append_assoc3 (a b c : string) : (a +:+ b) +:+ c = a +:+ b +:+ c.
Proof.
  induction a as [|x a IH]; [done|].
  change (String x (a +:+ b) +:+ c = String x (a +:+ b +:+ c)).
  change (String x ((a +:+ b) +:+ c) = String x (a +:+ b +:+ c)).
  by rewrite IH.
Qed.

Lemma addTo_inr (p : string) (r : Decoder + error) (err : error) :
  addTo p r = inr err ->
  exists e, r = inr e /\ err = errorString (p +:+ ": " +:+ Error_ e).
Proof. destruct r as [d|e]; cbn; [done|]. intros [= <-]. by exists e. Qed.

(** The error of a component comes back behind the breadcrumbs of the way
    to it. *)
Lemma descends_error (reg : Registry) (typ t : rtype) (path : string)
    (e : error) :
  descends reg typ path t -> decoderOfPtr reg t = inr e ->
  exists err,
    decoderOfPtr reg typ = inr err /\
    Error_ err = path +:+ Error_ e /\
    (path = "" -> err = e).
Proof.
  intros Hpath He.
  induction Hpath as [typ|name elem path t Hname Hreg _ IH
    |name key elem path t Hname Hreg _ IH|name elem path t Hname Hreg _ IH].
  - by exists e.
  - destruct (IH He) as (err & Herr & Hmsg & _).
    rewrite (decoderOfPtr_unfold reg (reflect.TSlice _ _)).
    cbn [reflect.Type_String]. rewrite Hreg, decide_False by done.
    unfold decoderOfSlice. rewrite Herr. cbn. eexists. split; [done|].
    cbn. rewrite Hmsg. split; [|done].
    by rewrite <- (append_assoc3 "[slice]" ": "), <- append_assoc3.
  - destruct (IH He) as (err & Herr & Hmsg & _).
    rewrite (decoderOfPtr_unfold reg (reflect.TMap _ _ _)).
    cbn [reflect.Type_String]. rewrite Hreg, decide_False by done.
    unfold decoderOfMap. rewrite Herr. cbn. eexists. split; [done|].
    cbn. rewrite Hmsg. split; [|done].
    by rewrite <- (append_assoc3 "[map]" ": "), <- append_assoc3.
  - destruct (IH He) as (err & Herr & Hmsg & _).
    rewrite (decoderOfPtr_unfold reg (reflect.TPtr _ _)).
    cbn [reflect.Type_String]. rewrite Hreg, decide_False by done.
    unfold decoderOfOptional. rewrite Herr. cbn. eexists. split; [done|].
    cbn. rewrite Hmsg. split; [|done].
    by rewrite <- (append_assoc3 "[optional]" ": "), <- append_assoc3.
Qed.

(** A failure comes from a component that is of an unsupported kind or is a
    struct the struct compiler refuses. *)
Lemma decoderOfPtr_failure (reg : Registry) (typ : rtype) (err : error) :
  decoderOfPtr reg typ = inr err ->
  exists path t,
    descends reg typ path t /\
    reflect.Type_String t <> "jsoniter.Any" /\
    typeDecoders reg !! reflect.Type_String t = None /\
    ((unsupportedKind (reflect.Type_Kind t) /\
      decoderOfPtr reg t =
      inr (errorString ("unsupported type: " +:+ reflect.Type_String t))) \/
     (reflect.Type_Kind t = reflect.Struct /\
      exists e, decoderOfStruct reg t = inr e /\ decoderOfPtr reg t = inr e)).
Proof.
  revert err.
  induction typ as [name k|name fields|name len elem IH|name elem IH
    |name key IHkey elem IH|name elem IH|name elem IH]; intros err;
    rewrite decoderOfPtr_unfold; cbn [reflect.Type_String];
    (case_decide as Hname; [done|]);
    destruct (typeDecoders reg !! name) as [d|] eqn:Hreg; try done.
  - intros Herr.
    exists "", (reflect.TBasic name k). split; [constructor|].
    split; [done|]. split; [done|]. left.
    rewrite decoderOfPtr_unfold. cbn [reflect.Type_String].
    rewrite Hreg, decide_False by done.
    destruct k; try done; (split; [|done]); apply list_elem_of_In; cbn;
      tauto.
  - intros Herr. exists "", (reflect.TStruct name fields).
    split; [constructor|]. split; [done|]. split; [done|]. right.
    split; [done|]. exists err. split; [done|].
    rewrite decoderOfPtr_unfold. cbn [reflect.Type_String].
    by rewrite Hreg, decide_False.
  - intros Herr. exists "", (reflect.TArray name len elem).
    split; [constructor|]. split; [done|]. split; [done|]. left.
    split; [apply list_elem_of_In; cbn; tauto|].
    rewrite decoderOfPtr_unfold. cbn [reflect.Type_String].
    by rewrite Hreg, decide_False.
  - intros Herr. exists "", (reflect.TChan name elem).
    split; [constructor|]. split; [done|]. split; [done|]. left.
    split; [apply list_elem_of_In; cbn; tauto|].
    rewrite decoderOfPtr_unfold. cbn [reflect.Type_String].
    by rewrite Hreg, decide_False.
  - intros (e & Hmap & _)%addTo_inr. unfold decoderOfMap in Hmap.
    destruct (decoderOfPtr reg elem) as [d|e'] eqn:Helem; [done|].
    destruct (IH e' eq_refl) as (path & t & Hpath & Ht).
    exists ("[map]: " +:+ path), t. split; [by constructor|done].
  - intros (e & Hopt & _)%addTo_inr. unfold decoderOfOptional in Hopt.
    destruct (decoderOfPtr reg elem) as [d|e'] eqn:Helem; [done|].
    destruct (IH e' eq_refl) as (path & t & Hpath & Ht).
    exists ("[optional]: " +:+ path), t. split; [by constructor|done].
  - intros (e & Hslice & _)%addTo_inr. unfold decoderOfSlice in Hslice.
    destruct (decoderOfPtr reg elem) as [d|e'] eqn:Helem; [done|].
    destruct (IH e' eq_refl) as (path & t & Hpath & Ht).
    exists ("[slice]: " +:+ path), t. split; [by constructor|done].
Qed.

End CompileFailures.

Section CompileOutcomes.

Context `{NativeDecoders}.

Lemma decoderOfPtr_unsupported (reg : Registry) (t : rtype) :
  unsupportedKind (reflect.Type_Kind t) ->
  reflect.Type_String t <> "jsoniter.Any" ->
  typeDecoders reg !! reflect.Type_String t = None ->
  decoderOfPtr reg t =
  inr (errorString ("unsupported type: " +:+ reflect.Type_String t)).
Proof.
  intros Hkind Hname Hreg. rewrite decoderOfPtr_unfold, Hreg.
  rewrite decide_False by done.
  apply list_elem_of_In in Hkind. cbn in Hkind.
  destruct t as [? []| | | | | |]; cbn in Hkind; try done;
    intuition discriminate.
Qed.

(** X11. A compilation failure is the failure of one component: a type the
    compiler descends to through slices, maps and pointers, which is of a
    kind it has no case for or is a struct the struct compiler refuses, and
    the message is that component's message behind one breadcrumb per level.
    Conversely every component of an unsupported kind that the compiler
    descends to, with no override for it, makes the whole compilation fail
    with [unsupported type] and its name behind the breadcrumbs. *)
Theorem compile_failure_names_the_component (reg : Registry) (typ : rtype) :
  (forall err,
     decoderOfPtr reg typ = inr err ->
     exists path t e,
       descends reg typ path t /\
       decoderOfPtr reg t = inr e /\
       Error_ err = path +:+ Error_ e /\
       ((unsupportedKind (reflect.Type_Kind t) /\
         e = errorString ("unsupported type: " +:+ reflect.Type_String t)) \/
        (reflect.Type_Kind t = reflect.Struct /\
         decoderOfStruct reg t = inr e))) /\
  (forall path t,
     descends reg typ path t ->
     unsupportedKind (reflect.Type_Kind t) ->
     reflect.Type_String t <> "jsoniter.Any" ->
     typeDecoders reg !! reflect.Type_String t = None ->
     exists err,
       decoderOfPtr reg typ = inr err /\
       Error_ err = path +:+ "unsupported type: " +:+ reflect.Type_String t).
Proof.
  split.
  - intros err Herr.
    destruct (decoderOfPtr_failure reg typ err Herr)
      as (path & t & Hpath & Hname & Hreg & Hcause).
    assert (exists e, decoderOfPtr reg t = inr e /\
              ((unsupportedKind (reflect.Type_Kind t) /\
                e = errorString
                      ("unsupported type: " +:+ reflect.Type_String t)) \/
               (reflect.Type_Kind t = reflect.Struct /\
                decoderOfStruct reg t = inr e))) as (e & He & Hcause').
    { destruct Hcause as [[Hkind He]|[Hkind (e & Hstruct & He)]];
        eexists; (split; [exact He|]); [left|right]; done. }
    destruct (descends_error reg typ t path e Hpath He) as (err' & Herr' & Hmsg & _).
    rewrite Herr in Herr'. injection Herr' as <-.
    by exists path, t, e.
  - intros path t Hpath Hkind Hname Hreg.
    pose proof (decoderOfPtr_unsupported reg t Hkind Hname Hreg) as He.
    destruct (descends_error reg typ t path _ Hpath He) as (err & Herr & Hmsg & _).
    by exists err.
Qed.

(** X12. A type built from the scalar kinds and the interface kind with
    slices, maps and pointers always compiles, whatever is registered: no
    registration makes a supported type fail. *)
Theorem plain_shapes_compile (reg : Registry) (typ : rtype) :
  plainShape typ = true -> exists decoder, decoderOfPtr reg typ = inl decoder.
Proof.
  induction typ as [name k|name fields|name len elem IH|name elem IH
    |name key IHkey elem IH|name elem IH|name elem IH]; cbn [plainShape];
    try done; intros Hplain; rewrite decoderOfPtr_unfold;
    (destruct (decide (_ = "jsoniter.Any")); [by eauto|]);
    destruct (typeDecoders reg !! _) as [d|]; try (by eauto).
  - apply bool_decide_eq_true in Hplain.
    destruct k; try (by eauto); exfalso; apply Hplain, list_elem_of_In; cbn;
      tauto.
  - destruct (IH Hplain) as [d Hd]. unfold decoderOfMap. rewrite Hd. by eauto.
  - destruct (IH Hplain) as [d Hd]. unfold decoderOfOptional. rewrite Hd.
    by eauto.
  - destruct (IH Hplain) as [d Hd]. unfold decoderOfSlice. rewrite Hd. by eauto.
Qed.

End CompileOutcomes.

Lemma compile_failure_names_the_component_witness :
  descends init_registry t_nested "[optional]: [slice]: [map]: " t_chan_int /\
  unsupportedKind (reflect.Type_Kind t_chan_int) /\
  exists err,
    @decoderOfPtr Scanner.decoders init_registry t_nested = inr err /\
    Error_ err = "[optional]: [slice]: [map]: unsupported type: chan int".
Proof.
  assert (descends init_registry t_nested "[optional]: [slice]: [map]: "
                   t_chan_int) as Hpath.
  { apply (descends_ptr _ _ _ "[slice]: [map]: "); [discriminate|reflexivity|].
    apply (descends_slice _ _ _ "[map]: "); [discriminate|reflexivity|].
    apply (descends_map _ _ _ _ ""); [discriminate|reflexivity|].
    apply descends_here. }
  assert (unsupportedKind (reflect.Type_Kind t_chan_int)) as Hkind.
  { apply list_elem_of_In. cbn. tauto. }
  split; [exact Hpath|]. split; [exact Hkind|].
  apply (proj2 (@compile_failure_names_the_component Scanner.decoders
                  init_registry t_nested) _ _ Hpath Hkind);
    [discriminate|reflexivity].
Defined.

Lemma plain_shapes_compile_witness :
  plainShape (reflect.TPtr "*[]map[string]interface {}"
                (reflect.TSlice "[]map[string]interface {}"
                   (reflect.TMap "map[string]interface {}" t_string
                                 t_interface))) = true /\
  exists decoder,
    @decoderOfPtr Scanner.decoders
      (RegisterTypeDecoder "string" storeNil init_registry)
      (reflect.TPtr "*[]map[string]interface {}"
         (reflect.TSlice "[]map[string]interface {}"
            (reflect.TMap "map[string]interface {}" t_string t_interface)))
    = inl decoder.
Proof.
  split; [reflexivity|].
  apply (@plain_shapes_compile Scanner.decoders). reflexivity.
Defined.

(** ** The entry point and the cache *)

Section ReadOutcomes.

Context `{TokenSource} `{NativeDecoders}.

(** X13. The first [Read] of a type compiles it and puts the decoder into the
    cache under the pointee type, leaving the other entries alone; every
    later [Read] of that type takes the decoder from the cache, leaves the
    cache as it is and does not compile again, so that it runs the cached
    decoder even under a registry that has changed since. *)
Theorem Read_compiles_once (reg : Registry) (obj : emptyInterface) (c : Cache)
    (st : State) (cacheKey : rtype) (cache : gmap rtype Decoder)
    (decoder : Decoder) :
  reflect.Type_Elem (typ obj) = Ret cacheKey ->
  objects c !! DECODERS c = Some cache ->
  cache !! cacheKey = None ->
  decoderOfType reg (typ obj) = inl decoder ->
  exists c',
    Read reg obj c st = Ret (c', decode decoder (word obj) st) /\
    getDecoderFromCache cacheKey c' = Ret (Some decoder) /\
    (forall other, other <> cacheKey ->
       getDecoderFromCache other c' = getDecoderFromCache other c) /\
    (forall reg2 obj2 st2,
       reflect.Type_Elem (typ obj2) = Ret cacheKey ->
       Read reg2 obj2 c' st2 = Ret (c', decode decoder (word obj2) st2)).
Proof.
  intros Helem Hcache Hmiss Hcompile.
  set (c' := mkCache (fresh (dom (objects c)))
               (<[fresh (dom (objects c)) := <[cacheKey := decoder]> cache]>
                  (objects c))).
  assert (getDecoderFromCache cacheKey c' = Ret (Some decoder)) as Hget.
  { unfold getDecoderFromCache. cbn. by rewrite !lookup_insert_eq. }
  exists c'. split; [|split; [done|split]].
  - unfold Read. rewrite Helem. cbn -[addDecoderToCache].
    unfold getDecoderFromCache. rewrite Hcache. cbn -[addDecoderToCache].
    rewrite Hmiss, Hcompile.
    by rewrite (addDecoderToCache_alone _ _ _ _ Hcache).
  - intros other Hother. unfold getDecoderFromCache. cbn.
    by rewrite lookup_insert_eq, Hcache, lookup_insert_ne.
  - intros reg2 obj2 st2 Helem2. unfold Read. rewrite Helem2. cbn.
    by rewrite Hget.
Qed.

(** X14. [Read] looks into the cache before it looks at the kind of the root.
    A root whose type has no element type (a scalar, a struct, a function)
    makes it panic in [reflect]; a slice, map, array or channel passed by
    value is refused with [expect ptr], the cache staying as it is, only
    when its element type is not in the cache: when it is, the element's
    decoder is run on the data word and no error is reported. *)
Theorem Read_of_a_non_pointer (reg : Registry) (obj : emptyInterface)
    (c : Cache) (st : State) :
  reflect.Type_Kind (typ obj) <> reflect.Ptr ->
  (reflect.Type_Kind (typ obj) ∉
     [reflect.Array; reflect.Chan; reflect.Map; reflect.Slice] ->
   Read reg obj c st = Panic "reflect: Elem of invalid type") /\
  (reflect.Type_Kind (typ obj) ∈
     [reflect.Array; reflect.Chan; reflect.Map; reflect.Slice] ->
   exists elem,
     reflect.Type_Elem (typ obj) = Ret elem /\
     (getDecoderFromCache elem c = Ret None ->
      Read reg obj c st =
      Ret (c, setIter (setError (errorString "expect ptr") (iter st)) st)) /\
     (forall decoder,
        getDecoderFromCache elem c = Ret (Some decoder) ->
        Read reg obj c st = Ret (c, decode decoder (word obj) st))).
Proof.
  intros Hptr. unfold Read. split.
  - intros Hkind.
    destruct (typ obj) as [? k| | | | | |]; try done; exfalso; apply Hkind,
      list_elem_of_In; cbn; tauto.
  - intros Hkind. apply list_elem_of_In in Hkind. cbn in Hkind.
    destruct (typ obj) as [? []| |name len elem|name elem|name key elem| 
      |name elem]; cbn in Hkind, Hptr; try done;
      try (exfalso; intuition discriminate);
      exists elem; (split; [done|]); cbn;
      (split; [intros Hget|intros decoder Hget]); by rewrite Hget.
Qed.

(** X15. A decoder function registered under the name of the pointee type is
    what the first [Read] of a pointer to that type runs, on the address
    passed in and on nothing else, and what it leaves in the cache. *)
Theorem Read_runs_the_registered_function (reg : Registry) (name : string)
    (elem : rtype) (ptr : loc) (fun_ : DecoderFunc) (c : Cache) (st : State)
    (cache : gmap rtype Decoder) :
  reflect.Type_String elem <> "jsoniter.Any" ->
  objects c !! DECODERS c = Some cache ->
  cache !! elem = None ->
  exists c',
    Read (RegisterTypeDecoder (reflect.Type_String elem) fun_ reg)
         (mkInterface (reflect.TPtr name elem) ptr) c st =
    Ret (c', fun_ ptr st) /\
    getDecoderFromCache elem c' = Ret (Some (funcDecoder fun_)).
Proof.
  intros Hname Hcache Hmiss.
  assert (decoderOfPtr (RegisterTypeDecoder (reflect.Type_String elem) fun_ reg)
            elem = inl (funcDecoder fun_)) as Hptr.
  { apply decoderOfPtr_registered; [done|]. cbn. apply lookup_insert_eq. }
  unfold Read. cbn -[addDecoderToCache decoderOfPtr RegisterTypeDecoder].
  unfold getDecoderFromCache at 1. rewrite Hcache.
  cbn -[addDecoderToCache decoderOfPtr RegisterTypeDecoder].
  rewrite Hmiss, Hptr. cbn -[addDecoderToCache].
  rewrite (addDecoderToCache_alone _ _ _ _ Hcache). cbn.
  eexists. split; [done|].
  unfold getDecoderFromCache. cbn. by rewrite !lookup_insert_eq.
Qed.

End ReadOutcomes.

Lemma Read_compiles_once_witness :
  let obj := mkInterface (reflect.PtrTo t_string) 1%positive in
  let st := mkState {[ 1%positive := CVal (string_ "") ]} (ParseString hello) in
  reflect.Type_Elem (typ obj) = Ret t_string /\
  @decoderOfType Scanner.decoders init_registry (typ obj) = inl stringDecoder /\
  exists c',
    @Read Scanner.source Scanner.decoders init_registry obj init_cache st =
      Ret (c', @decode Scanner.source Scanner.decoders stringDecoder 1%positive st) /\
    @Read Scanner.source Scanner.decoders
          (RegisterTypeDecoder "string" storeNil init_registry) obj c' st =
      Ret (c', @decode Scanner.source Scanner.decoders stringDecoder 1%positive st).
Proof.
  cbn zeta. split; [reflexivity|]. split; [reflexivity|].
  destruct (@Read_compiles_once Scanner.source Scanner.decoders init_registry
              (mkInterface (reflect.PtrTo t_string) 1%positive) init_cache
              (mkState {[ 1%positive := CVal (string_ "") ]} (ParseString hello))
              t_string ∅ stringDecoder eq_refl eq_refl eq_refl eq_refl)
    as (c' & Hfirst & _ & _ & Hlater).
  exists c'. split; [exact Hfirst|]. apply Hlater. reflexivity.
Defined.

Lemma Read_of_a_non_pointer_witness :
  let slice := mkInterface (reflect.TSlice "[]int" t_int) 1%positive in
  let st := mkState {[ 1%positive := CVal (slice_ []) ]} (ParseString "7") in
  reflect.Type_Kind (typ slice) <> reflect.Ptr /\
  getDecoderFromCache t_int init_cache = Ret None /\
  getDecoderFromCache t_int cacheWithInt = Ret (Some intDecoder) /\
  @Read Scanner.source Scanner.decoders init_registry slice init_cache st =
    Ret (init_cache,
         setIter (setError (errorString "expect ptr") (iter st)) st) /\
  @Read Scanner.source Scanner.decoders init_registry slice cacheWithInt st =
    Ret (cacheWithInt,
         @decode Scanner.source Scanner.decoders intDecoder 1%positive st) /\
  @Read Scanner.source Scanner.decoders init_registry
        (mkInterface t_int 1%positive) init_cache st =
    Panic "reflect: Elem of invalid type".
Proof.
  cbn zeta. split; [discriminate|]. split; [reflexivity|]. split; [reflexivity|].
  destruct (proj2 (@Read_of_a_non_pointer Scanner.source Scanner.decoders
                     init_registry
                     (mkInterface (reflect.TSlice "[]int" t_int) 1%positive)
                     init_cache
                     (mkState {[ 1%positive := CVal (slice_ []) ]}
                              (ParseString "7"))
                     ltac:(discriminate)))
    as (elem & Helem & Hmiss & _).
  { apply list_elem_of_In. cbn. tauto. }
  injection Helem as <-.
  split; [apply Hmiss; reflexivity|].
  destruct (proj2 (@Read_of_a_non_pointer Scanner.source Scanner.decoders
                     init_registry
                     (mkInterface (reflect.TSlice "[]int" t_int) 1%positive)
                     cacheWithInt
                     (mkState {[ 1%positive := CVal (slice_ []) ]}
                              (ParseString "7"))
                     ltac:(discriminate)))
    as (elem & Helem & _ & Hhit).
  { apply list_elem_of_In. cbn. tauto. }
  injection Helem as <-.
  split; [apply Hhit; reflexivity|].
  apply (proj1 (@Read_of_a_non_pointer Scanner.source Scanner.decoders
                  init_registry (mkInterface t_int 1%positive) init_cache
                  (mkState {[ 1%positive := CVal (slice_ []) ]}
                           (ParseString "7"))
                  ltac:(discriminate))).
  intros Hin. apply list_elem_of_In in Hin. cbn in Hin.
  intuition discriminate.
Defined.

Lemma Read_runs_the_registered_function_witness :
  reflect.Type_String t_int <> "jsoniter.Any" /\
  exists c',
    @Read Scanner.source Scanner.decoders
          (RegisterTypeDecoder "int" storeNil init_registry)
          (mkInterface (reflect.TPtr "*int" t_int) 1%positive) init_cache
          nilPointer =
    Ret (c', storeNil 1%positive nilPointer) /\
    getDecoderFromCache t_int c' = Ret (Some (funcDecoder storeNil)).
Proof.
  split; [discriminate|].
  apply (@Read_runs_the_registered_function Scanner.source Scanner.decoders
           init_registry "*int" t_int 1%positive storeNil init_cache nilPointer
           ∅); [discriminate|reflexivity|reflexivity].
Defined.

Section ReadIntoPointer.

Context `{TokenSource} `{NativeDecoders}.

(** X16. The first [Read] into a destination of type pointer to [T] that
    holds nil, on a token that is not null: the pointer type is compiled to
    an optional decoder around the decoder of [T] and cached, a variable that
    did not exist before is allocated with the zero value of [T], the decoder
    of [T] runs on it, and its address is stored in the destination. *)
Theorem Read_into_a_nil_pointer (reg : Registry) (name1 name2 : string)
    (T : rtype) (ptr : loc) (c : Cache) (st : State)
    (cache : gmap rtype Decoder) (decoder : Decoder) :
  name2 <> "jsoniter.Any" ->
  typeDecoders reg !! name2 = None ->
  decoderOfPtr reg T = inl decoder ->
  objects c !! DECODERS c = Some cache ->
  cache !! reflect.TPtr name2 T = None ->
  (ReadNil (iter st)).1 = false ->
  loadPointer ptr st = None ->
  let value := fresh (dom (heap st)) in
  let st2 :=
    mkState (<[value := zeroValue T]> (heap st)) (ReadNil (iter st)).2 in
  exists c',
    Read reg (mkInterface (reflect.TPtr name1 (reflect.TPtr name2 T)) ptr) c st
    = Ret (c', storePointer ptr (Some value) (decode decoder value st2)) /\
    getDecoderFromCache (reflect.TPtr name2 T) c' =
      Ret (Some (optionalDecoder T decoder)) /\
    heap st !! value = None.
Proof.
  intros Hname Hreg HT Hcache Hmiss Hnil Hload. cbn zeta.
  assert (decoderOfPtr reg (reflect.TPtr name2 T) =
          inl (optionalDecoder T decoder)) as Hptr.
  { rewrite decoderOfPtr_unfold. cbn [reflect.Type_String].
    rewrite Hreg, decide_False by done. unfold decoderOfOptional.
    by rewrite HT. }
  unfold Read. cbn -[addDecoderToCache decoderOfPtr decode].
  unfold getDecoderFromCache at 1. rewrite Hcache.
  cbn -[addDecoderToCache decoderOfPtr decode].
  rewrite Hmiss, Hptr. cbn -[addDecoderToCache decode].
  rewrite (addDecoderToCache_alone _ _ _ _ Hcache). cbn -[decode].
  eexists. split; [|split].
  - f_equal. f_equal. cbn [decode]. unfold optionalDecoder_decode.
    destruct (ReadNil (iter st)) as [isNil it]. cbn in Hnil. subst isNil.
    change (loadPointer ptr (setIter it st)) with (loadPointer ptr st).
    by rewrite Hload.
  - unfold getDecoderFromCache. cbn. by rewrite !lookup_insert_eq.
  - apply not_elem_of_dom, is_fresh.
Qed.

End ReadIntoPointer.

Lemma Read_into_a_nil_pointer_witness :
  (@ReadNil Scanner.source (iter nilPointer)).1 = false /\
  loadPointer 1%positive nilPointer = None /\
  exists c' st',
    @Read Scanner.source Scanner.decoders init_registry
          (mkInterface (reflect.TPtr "**string" (reflect.TPtr "*string" t_string))
                       1%positive) init_cache nilPointer = Ret (c', st') /\
    getDecoderFromCache (reflect.TPtr "*string" t_string) c' =
      Ret (Some (optionalDecoder t_string stringDecoder)) /\
    loadPointer 1%positive st' = Some 2%positive /\
    heap st' !! 2%positive = Some (CVal (string_ "hello")).
Proof.
  split; [reflexivity|]. split; [reflexivity|].
  destruct (@Read_into_a_nil_pointer Scanner.source Scanner.decoders
              init_registry "**string" "*string" t_string 1%positive init_cache
              nilPointer ∅ stringDecoder)
    as (c' & Hread & Hget & _);
    [discriminate|reflexivity|reflexivity|reflexivity|reflexivity|reflexivity
    |reflexivity|].
  eexists c', _. split; [exact Hread|]. split; [exact Hget|].
  split; reflexivity.
Defined.

(** ** The optional decoder, twice *)

Section OptionalTwice.

Context `{TokenSource} `{NativeDecoders}.

Lemma optionalDecoder_decode_nil (valueType : rtype) (f : DecoderFunc)
    (ptr : loc) (s : State) :
  (ReadNil (iter s)).1 = false -> loadPointer ptr s = None ->
  optionalDecoder_decode valueType f ptr s =
  storePointer ptr (Some (fresh (dom (heap s))))
    (f (fresh (dom (heap s)))
       (mkState (<[fresh (dom (heap s)) := zeroValue valueType]> (heap s))
                (ReadNil (iter s)).2)).
Proof.
  intros Hnil Hload. unfold optionalDecoder_decode.
  destruct (ReadNil (iter s)) as [isNil it]. cbn in Hnil. subst isNil.
  change (loadPointer ptr (setIter it s)) with (loadPointer ptr s).
  by rewrite Hload.
Qed.

Lemma optionalDecoder_decode_populated (valueType : rtype) (f : DecoderFunc)
    (ptr existing : loc) (s : State) :
  (ReadNil (iter s)).1 = false -> loadPointer ptr s = Some existing ->
  optionalDecoder_decode valueType f ptr s =
  f existing (setIter (ReadNil (iter s)).2 s).
Proof.
  intros Hnil Hload. unfold optionalDecoder_decode.
  destruct (ReadNil (iter s)) as [isNil it]. cbn in Hnil. subst isNil.
  change (loadPointer ptr (setIter it s)) with (loadPointer ptr s).
  by rewrite Hload.
Qed.

(** X17. Decoding twice into the same destination allocates once.  When the
    first decoding finds nil in the destination and allocates, a second
    decoding of a token that is not null runs the value decoder on the
    variable the first one allocated and allocates nothing itself, so the
    destination keeps pointing to the same variable, as long as the value
    decoder does not write the destination itself. *)
Theorem optionalDecoder_reuses_storage (valueType : rtype)
    (valueDecoder : Decoder) (ptr : loc) (st : State) (it2 : Iterator) :
  heap st !! ptr = Some (CPtr None) ->
  (ReadNil (iter st)).1 = false ->
  (ReadNil it2).1 = false ->
  (forall target s, target <> ptr ->
     heap (decode valueDecoder target s) !! ptr = heap s !! ptr) ->
  let value := fresh (dom (heap st)) in
  let first := decode (optionalDecoder valueType valueDecoder) ptr st in
  let second :=
    decode (optionalDecoder valueType valueDecoder) ptr (setIter it2 first) in
  loadPointer ptr first = Some value /\
  second = decode valueDecoder value (setIter (ReadNil it2).2 first) /\
  loadPointer ptr second = Some value.
Proof.
  intros Hptr Hnil1 Hnil2 Hframe. cbn zeta. cbn [decode].
  assert (fresh (dom (heap st)) <> ptr) as Hfresh.
  { intros Heq. apply (is_fresh (dom (heap st))). rewrite Heq.
    by apply elem_of_dom. }
  assert (loadPointer ptr st = None) as Hload
    by (unfold loadPointer; by rewrite Hptr).
  rewrite (optionalDecoder_decode_nil _ _ _ _ Hnil1 Hload).
  set (value := fresh (dom (heap st))) in *.
  set (first := storePointer ptr (Some value) _).
  assert (loadPointer ptr first = Some value) as Hfirst.
  { unfold loadPointer, first, storePointer. cbn. by rewrite lookup_insert_eq. }
  split; [done|].
  rewrite (optionalDecoder_decode_populated _ _ _ value (setIter it2 first))
    by done.
  split; [done|]. cbn [iter setIter].
  unfold loadPointer. rewrite Hframe by done. cbn.
  by rewrite lookup_insert_eq.
Qed.

End OptionalTwice.

Lemma optionalDecoder_reuses_storage_witness :
  let decode_ :=
    @decode Scanner.source Scanner.decoders
            (optionalDecoder t_string stringDecoder) 1%positive in
  heap nilPointer !! 1%positive = Some (CPtr None) /\
  (@ReadNil Scanner.source (ParseString hello)).1 = false /\
  (forall target s, target <> 1%positive ->
     heap (@decode Scanner.source Scanner.decoders stringDecoder target s)
     !! 1%positive = heap s !! 1%positive) /\
  loadPointer 1%positive (decode_ nilPointer) = Some 2%positive /\
  loadPointer 1%positive
    (decode_ (setIter (ParseString hello) (decode_ nilPointer)))
  = Some 2%positive.
Proof.
  assert (forall target s, target <> 1%positive ->
            heap (@decode Scanner.source Scanner.decoders stringDecoder target s)
            !! 1%positive = heap s !! 1%positive) as Hframe.
  { intros target s Hne. cbn. destruct (Scanner.readString (iter s)). cbn.
    apply lookup_insert_ne. exact Hne. }
  cbn zeta. split; [reflexivity|]. split; [reflexivity|]. split; [exact Hframe|].
  destruct (@optionalDecoder_reuses_storage Scanner.source Scanner.decoders
              t_string stringDecoder 1%positive nilPointer (ParseString hello)
              eq_refl eq_refl eq_refl Hframe) as (Hfirst & _ & Hsecond).
  split; [exact Hfirst|exact Hsecond].
Defined.

(** ** Results of ReadAny *)

Section ReadAnyOutcomes.

Context `{TokenSource} `{FloatParser}.

Implicit Types (readAny : Iterator -> outcome (option Any * Iterator)).

Lemma readElements_panic readAny n acc it why :
  (forall it1 it2, readAny it1 = Ret (None, it2) -> Error it2 <> None) ->
  (forall it1 w, readAny it1 = Panic w -> w = "index out of range") ->
  readElements readAny n acc it = Panic why -> why = "index out of range".
Proof.
  intros Hnil Hpanic. revert acc it.
  induction n as [|n IH]; intros acc it; cbn; [done|].
  destruct (ReadArray it) as [[] it1]; [|done].
  destruct (readAny it1) as [[element it2]|w|] eqn:Hany; cbn; [| |done].
  - unfold hasError. destruct (Error it2) eqn:Herr; [done|].
    destruct element; [apply IH|]. by apply Hnil in Hany.
  - intros [= <-]. by eapply Hpanic.
Qed.

Lemma readFields_panic readAny n acc it why :
  (forall it1 it2, readAny it1 = Ret (None, it2) -> Error it2 <> None) ->
  (forall it1 w, readAny it1 = Panic w -> w = "index out of range") ->
  readFields readAny n acc it = Panic why -> why = "index out of range".
Proof.
  intros Hnil Hpanic. revert acc it.
  induction n as [|n IH]; intros acc it; cbn; [done|].
  destruct (ReadObject it) as [field it1]. case_decide; [done|].
  destruct (readAny it1) as [[element it2]|w|] eqn:Hany; cbn; [| |done].
  - unfold hasError. destruct (Error it2) eqn:Herr; [done|].
    destruct element; [apply IH|]. by apply Hnil in Hany.
  - intros [= <-]. by eapply Hpanic.
Qed.

(** X18. [ReadAny] returns nil only together with an error: when the error
    slot is empty after it returns, the result is an [Any], whatever the
    token source did. *)
Theorem ReadAny_without_error_is_not_nil (fuel : nat) (it it' : Iterator)
    (ret : option Any) :
  ReadAny fuel it = Ret (ret, it') -> Error it' = None ->
  exists any, ret = Some any.
Proof.
  intros Hread Herr. destruct ret as [any|]; [by eauto|].
  by apply ReadAny_nil in Hread.
Qed.

(** X19. The only panic of [ReadAny] is the index out of range of the number
    scan, which needs an iterator whose [tail] lies beyond its buffer; the
    [element.val] of the array and object loops never dereferences nil,
    whatever the token source returns. *)
Theorem ReadAny_panics_only_out_of_range (fuel : nat) (it : Iterator)
    (why : string) :
  ReadAny fuel it = Panic why -> why = "index out of range".
Proof.
  revert it why. induction fuel as [|fuel IH]; intros it why; [done|].
  cbn [ReadAny].
  destruct (WhatIsNext it) as [[] it0]; try done.
  - by destruct (ReadString it0).
  - unfold readNumber, scanNumber.
    destruct (numberLoop (S (refills it0)) it0 (mkScan [] false false))
      as [[s it1]|w|] eqn:Hloop; [| |done].
    + cbn. repeat case_match; done.
    + intros [= <-]. by apply numberLoop_panic in Hloop.
  - by destruct (ReadBool it0).
  - apply readElements_panic; [apply ReadAny_nil|apply IH].
  - apply readFields_panic; [apply ReadAny_nil|apply IH].
Qed.

(** X20. When a field name occurs more than once in an object, the mapping
    [ReadAny] returns holds the value of its last occurrence; a name that
    does not occur is absent from the mapping. *)
Theorem ReadAny_repeated_field (fuel : nat) (it it0 itn itEnd : Iterator)
    (kvs : list (string * interface)) :
  WhatIsNext it = (ValueType.Object, it0) ->
  fieldsRead (ReadAny fuel) it0 kvs itn ->
  ReadObject itn = ("", itEnd) ->
  length kvs < fuel ->
  exists m,
    ReadAny (S fuel) it = Ret (MakeAny (map_ m), itEnd) /\
    (forall before k v after,
       kvs = before ++ (k, v) :: after -> k ∉ after.*1 -> m !! k = Some v) /\
    (forall k, k ∉ kvs.*1 -> m !! k = None).
Proof.
  intros Hkind Hrun Hend Hlen. exists (mappingOf kvs). split.
  - cbn [ReadAny]. rewrite Hkind. by eapply readFields_end.
  - split.
    + intros before k v after -> Hk. by apply (assignAll_last ∅).
    + intros k Hk. change (assignAll ∅ kvs !! k = None).
      rewrite assignAll_absent by done. apply lookup_empty.
Qed.

End ReadAnyOutcomes.

Lemma ReadAny_without_error_is_not_nil_witness :
  exists any it',
    @ReadAny Scanner.source Scanner.floats 4 (ParseString "[1,2]") =
      Ret (Some any, it') /\
    Error it' = None.
Proof.
  destruct (@ReadAny_without_error_is_not_nil Scanner.source Scanner.floats 4
              (ParseString "[1,2]") (atByte 5 "[1,2]")
              (MakeAny (slice_ [uint64_ 1; uint64_ 2])))
    as [any Hany]; [vm_compute; reflexivity|reflexivity|].
  exists any, (atByte 5 "[1,2]"). split; [|reflexivity].
  rewrite <- Hany. vm_compute. reflexivity.
Defined.

Lemma ReadAny_panics_only_out_of_range_witness :
  length (buf overlongTail) < tail overlongTail /\
  @ReadAny Scanner.source Scanner.floats 1 overlongTail =
    Panic "index out of range".
Proof.
  split; [vm_compute; lia|].
  assert (exists why,
            @ReadAny Scanner.source Scanner.floats 1 overlongTail = Panic why)
    as [why Hwhy] by (eexists; vm_compute; reflexivity).
  rewrite Hwhy. f_equal.
  exact (@ReadAny_panics_only_out_of_range Scanner.source Scanner.floats 1
           overlongTail why Hwhy).
Defined.

Lemma ReadAny_repeated_field_witness :
  @WhatIsNext Scanner.source (ParseString repeatedField) =
    (ValueType.Object, ParseString repeatedField) /\
  exists m,
    @ReadAny Scanner.source Scanner.floats 4 (ParseString repeatedField) =
      Ret (MakeAny (map_ m), atByte 13 repeatedField) /\
    m !! "a" = Some (uint64_ 2).
Proof.
  split; [reflexivity|].
  destruct (@ReadAny_repeated_field Scanner.source Scanner.floats 3
              (ParseString repeatedField) (ParseString repeatedField)
              (atByte 12 repeatedField) (atByte 13 repeatedField)
              [("a", uint64_ 1); ("a", uint64_ 2)] eq_refl)
    as (m & Hread & Hlast & _).
  - read_field (uint64_ 1). read_field (uint64_ 2). apply fieldsRead_nil.
  - reflexivity.
  - simpl. lia.
  - exists m. split; [exact Hread|].
    apply (Hlast [("a", uint64_ 1)] "a" (uint64_ 2) []); [reflexivity|].
    cbn. apply not_elem_of_nil.
Defined.
